(** * The bookstore scripts: [connection.js] and the query script

    A shallow embedding of the two scripts of the repository.  The scripts
    only drive a document database through a client library, so the
    development has three layers:

    - the data the scripts handle (book records, binary64 prices, query and
      pipeline documents);
    - a reference model of the driver calls the scripts make ([find] with
      sort/skip/limit, [updateMany] with [$mul], [deleteMany], [aggregate]
      with [$group]/[$sort]/[$limit], [createIndex], [indexes], [explain]);
    - the scripts themselves, written in a small state-and-exception monad
      whose state holds the collection, the open connections and the trace
      of driver calls and console lines. *)

From Stdlib Require Import ZArith SpecFloat DecimalString DecimalZ.
From stdpp Require Import base decidable option list strings gmap.

Local Open Scope string_scope.
Local Open Scope list_scope.
Local Open Scope Z_scope.

(** ** Numbers

    JavaScript numbers and BSON doubles are IEEE 754 binary64 values. *)

Definition double : Type := spec_float.

Definition prec : Z := 53.
Definition emax : Z := 1024.

Definition double_of_Z (z : Z) : double := binary_normalize prec emax z 0 false.
Definition double_mul : double → double → double := SFmul prec emax.
Definition double_add : double → double → double := SFadd prec emax.
Definition double_div : double → double → double := SFdiv prec emax.

(** The literal [1.1]: the binary64 value nearest to 11/10,
    [0x3FF199999999999A]. *)
Definition lit_1_1 : double := S754_finite false 4953959590107546 (-52).
(** The literal [10.99], [0x4025FAE147AE147B]. *)
Definition lit_10_99 : double := S754_finite false 6186819988100219 (-49).

Definition is_nan (d : double) : bool :=
  match d with S754_nan => true | _ => false end.

(** The order the server sorts doubles by: a NaN sorts before every number. *)
Definition double_le (a b : double) : bool := is_nan a || SFleb a b.

#[global] Instance spec_float_eq_dec : EqDecision spec_float.
Proof. solve_decision. Defined.

(** ** Book records *)

Record book : Type := Book {
  _id : nat;
  title : string;
  author : string;
  genre : string;
  price : double;
  published_year : Z;
  in_stock : bool
}.

#[global] Instance book_eq_dec : EqDecision book.
Proof. solve_decision. Defined.

(** What a read with [{ projection: { title: 1, author: 1, price: 1, _id: 0 } }]
    returns for a record. *)
Record projected : Type := Projected {
  proj_title : string;
  proj_author : string;
  proj_price : double
}.

Definition project (b : book) : projected :=
  {| proj_title := title b; proj_author := author b; proj_price := price b |}.

(** ** Query documents *)

(** One field condition of a filter document. *)
Inductive cond : Type :=
  | GenreEq (g : string)        (* { genre: g } *)
  | TitleEq (t : string)        (* { title: t } *)
  | PriceEq (p : double)        (* { price: p } *)
  | InStockEq (b : bool)        (* { in_stock: b } *)
  | YearLt (y : Z)              (* { published_year: { $lt: y } } *)
  | YearGt (y : Z).             (* { published_year: { $gt: y } } *)

(** A filter document is the conjunction of its conditions; [[]] is [{}]. *)
Definition filter_doc : Type := list cond.

#[global] Instance cond_eq_dec : EqDecision cond.
Proof. solve_decision. Defined.

Definition holds (b : book) (c : cond) : bool :=
  match c with
  | GenreEq g => String.eqb (genre b) g
  | TitleEq t => String.eqb (title b) t
  | PriceEq p => SFeqb (price b) p
  | InStockEq v => Bool.eqb (in_stock b) v
  | YearLt y => published_year b <? y
  | YearGt y => y <? published_year b
  end.

Definition matches (f : filter_doc) (b : book) : bool := forallb (holds b) f.

Inductive field : Type := FId | FTitle | FAuthor | FGenre | FPrice | FYear | FInStock.
Inductive direction : Type := Asc | Desc.

#[global] Instance field_eq_dec : EqDecision field.
Proof. solve_decision. Defined.
#[global] Instance direction_eq_dec : EqDecision direction.
Proof. solve_decision. Defined.

(** The sort documents the script uses: [{ price: ±1 }] and [{ title: 1 }]. *)
Definition sort_doc : Type := (field * direction)%type.

(** ** Sorting

    A stable insertion sort stands for the server's sort: records that tie
    on the key keep their collection order.  The server itself promises no
    order among such records, and two reads need not agree on one: what it
    does promise of a read is [answers], below, and what is proved of two
    separate reads is proved of all their answers. *)

Section Sorting.
Context {A : Type} (le : A → A → bool).

Fixpoint insert_sorted (x : A) (l : list A) : list A :=
  match l with
  | [] => [x]
  | y :: l' => if le x y then x :: l else y :: insert_sorted x l'
  end.

Definition sort_by (l : list A) : list A := foldr insert_sorted [] l.

(** Sortedness in the sense the insertion needs: every element is below
    its successor. *)
Fixpoint sorted (l : list A) : bool :=
  match l with
  | [] => true
  | x :: l' =>
      match l' with
      | [] => true
      | y :: _ => le x y && sorted l'
      end
  end.
End Sorting.

Definition with_direction {A} (d : direction) (le : A → A → bool) : A → A → bool :=
  match d with Asc => le | Desc => λ a b, le b a end.

Definition book_le (s : sort_doc) : book → book → bool :=
  let (f, d) := s in
  with_direction d
    (match f with
     | FTitle => λ a b, String.leb (title a) (title b)
     | FAuthor => λ a b, String.leb (author a) (author b)
     | FGenre => λ a b, String.leb (genre a) (genre b)
     | FPrice => λ a b, double_le (price a) (price b)
     | FYear => λ a b, published_year a <=? published_year b
     | FInStock => λ a b, implb (in_stock a) (in_stock b)
     | FId => λ a b, (_id a <=? _id b)%nat
     end).

(** ** Cursors: [find(...).sort(...).skip(...).limit(...)] *)

Record cursor : Type := Cursor {
  cur_filter : filter_doc;
  cur_projection : bool;
  cur_sort : option sort_doc;
  cur_skip : option nat;
  cur_limit : option nat
}.

#[global] Instance cursor_eq_dec : EqDecision cursor.
Proof. solve_decision. Defined.

Definition find (f : filter_doc) (projection : bool) : cursor :=
  {| cur_filter := f; cur_projection := projection;
     cur_sort := None; cur_skip := None; cur_limit := None |}.

Definition sort (s : sort_doc) (c : cursor) : cursor :=
  {| cur_filter := cur_filter c; cur_projection := cur_projection c;
     cur_sort := Some s; cur_skip := cur_skip c; cur_limit := cur_limit c |}.

Definition skip (n : nat) (c : cursor) : cursor :=
  {| cur_filter := cur_filter c; cur_projection := cur_projection c;
     cur_sort := cur_sort c; cur_skip := Some n; cur_limit := cur_limit c |}.

Definition limit (n : nat) (c : cursor) : cursor :=
  {| cur_filter := cur_filter c; cur_projection := cur_projection c;
     cur_sort := cur_sort c; cur_skip := cur_skip c; cur_limit := Some n |}.

(** The records a cursor selects, before projection: filter, then sort,
    then skip, then limit, whatever the order of the builder calls. *)
Definition cursor_books (c : cursor) (books : list book) : list book :=
  let matched := List.filter (matches (cur_filter c)) books in
  let ordered := match cur_sort c with
                 | Some s => sort_by (book_le s) matched
                 | None => matched
                 end in
  let skipped := match cur_skip c with Some n => drop n ordered | None => ordered end in
  match cur_limit c with Some n => take n skipped | None => skipped end.

(** Every read of the script projects to title, author and price. *)
Definition cursor_result (c : cursor) (books : list book) : list projected :=
  project <$> cursor_books c books.

(** What the server promises of a read: the matching records, in an order
    that respects the sort key when there is one, then skipped and limited.
    Records that tie on the key may come back in any order, and in another
    order at the next read.  [cursor_books] is the answer that keeps ties
    in collection order. *)
Definition answers (c : cursor) (books ans : list book) : Prop :=
  ∃ ordered,
    ordered ≡ₚ List.filter (matches (cur_filter c)) books ∧
    (∀ s, cur_sort c = Some s → sorted (book_le s) ordered = true) ∧
    ans = (let skipped := match cur_skip c with Some n => drop n ordered | None => ordered end in
           match cur_limit c with Some n => take n skipped | None => skipped end).

(** ** Writes: [updateMany] with [$mul], [deleteMany] *)

(** The one update document of the script: [{ $mul: { price: f } }]. *)
Inductive update_doc : Type :=
  | MulPrice (f : double).

#[global] Instance update_doc_eq_dec : EqDecision update_doc.
Proof. solve_decision. Defined.

Definition apply_update (u : update_doc) (b : book) : book :=
  match u with
  | MulPrice f =>
      {| _id := _id b; title := title b; author := author b; genre := genre b;
         price := double_mul (price b) f;
         published_year := published_year b; in_stock := in_stock b |}
  end.

Definition update_one (f : filter_doc) (u : update_doc) (b : book) : book :=
  if matches f b then apply_update u b else b.

Record update_result : Type := UpdateResult {
  matchedCount : nat;
  modifiedCount : nat
}.

(** The server counts a matched record as modified only when the update
    changes it. *)
Definition is_modified (f : filter_doc) (u : update_doc) (b : book) : bool :=
  matches f b && negb (bool_decide (apply_update u b = b)).

Definition updateMany_books (f : filter_doc) (u : update_doc) (books : list book) : list book :=
  update_one f u <$> books.

Definition updateMany_result (f : filter_doc) (u : update_doc) (books : list book) : update_result :=
  {| matchedCount := length (List.filter (matches f) books);
     modifiedCount := length (List.filter (is_modified f u) books) |}.

Record delete_result : Type := DeleteResult {
  deletedCount : nat
}.

Definition deleteMany_books (f : filter_doc) (books : list book) : list book :=
  List.filter (λ b, negb (matches f b)) books.

Definition deleteMany_result (f : filter_doc) (books : list book) : delete_result :=
  {| deletedCount := length (List.filter (matches f) books) |}.

(** ** Aggregation: [$group], then [$sort] and [$limit] *)

Inductive group_key : Type :=
  | KeyAuthor       (* _id: "$author" *)
  | KeyGenre        (* _id: "$genre" *)
  | KeyDecade.      (* _id: { $concat: [ { $toString: { $subtract:
                         [ "$published_year", { $mod: [ "$published_year", 10 ] } ] } }, "s" ] } *)

(** [$toString] of an integer. *)
Definition toString (z : Z) : string := NilZero.string_of_int (Z.to_int z).

(** [$mod] is the truncated remainder, as in JavaScript. *)
Definition decade_of (year : Z) : string :=
  toString (year - Z.rem year 10) +:+ "s".

Definition key_of (k : group_key) (b : book) : string :=
  match k with
  | KeyAuthor => author b
  | KeyGenre => genre b
  | KeyDecade => decade_of (published_year b)
  end.

(** Groups in order of first occurrence, each with its members in
    collection order. *)
Fixpoint add_to_group (k : string) (b : book) (gs : list (string * list book))
  : list (string * list book) :=
  match gs with
  | [] => [(k, [b])]
  | (k', bs) :: gs' =>
      if String.eqb k k' then (k', bs ++ [b]) :: gs'
      else (k', bs) :: add_to_group k b gs'
  end.

Definition group_by (k : group_key) (books : list book) : list (string * list book) :=
  fold_left (λ gs b, add_to_group (key_of k b) b gs) books [].

(** A document a [$group] stage outputs.  The count accumulator
    [{ $sum: 1 }] is called [totalBooks], [bookCount] or [count] by the
    pipelines of the script; [avgPrice] is there when the stage asks for
    [{ $avg: "$price" }]. *)
Record group_doc : Type := GroupDoc {
  grp_id : string;
  avgPrice : option double;
  totalBooks : nat
}.

(** [$avg]: the sum of the prices over their number.  The model adds the
    prices from left to right in binary64; the server may accumulate its
    sum with more care, so the last bits of an average are the model's
    own, and no theorem below states the value of one. *)
Definition avg (prices : list double) : double :=
  double_div (foldl double_add (double_of_Z 0) prices)
             (double_of_Z (Z.of_nat (length prices))).

Definition group_doc_of (with_avg : bool) (g : string * list book) : group_doc :=
  {| grp_id := g.1;
     avgPrice := if with_avg then Some (avg (price <$> g.2)) else None;
     totalBooks := length g.2 |}.

Inductive group_field : Type := GId | GAvgPrice | GCount.

Inductive post_stage : Type :=
  | StageSort (f : group_field) (d : direction)
  | StageLimit (n : nat).

Record pipeline : Type := Pipeline {
  pipe_key : group_key;
  pipe_avg : bool;
  pipe_post : list post_stage
}.

(** A missing value sorts before every number. *)
Definition option_double_le (a b : option double) : bool :=
  match a, b with
  | None, _ => true
  | Some _, None => false
  | Some x, Some y => double_le x y
  end.

Definition group_le (f : group_field) (d : direction) : group_doc → group_doc → bool :=
  with_direction d
    (match f with
     | GId => λ a b, String.leb (grp_id a) (grp_id b)
     | GAvgPrice => λ a b, option_double_le (avgPrice a) (avgPrice b)
     | GCount => λ a b, (totalBooks a <=? totalBooks b)%nat
     end).

Definition run_stage (st : post_stage) (docs : list group_doc) : list group_doc :=
  match st with
  | StageSort f d => sort_by (group_le f d) docs
  | StageLimit n => take n docs
  end.

Definition aggregate_result (p : pipeline) (books : list book) : list group_doc :=
  foldl (λ docs st, run_stage st docs)
        (group_doc_of (pipe_avg p) <$> group_by (pipe_key p) books)
        (pipe_post p).

(** ** Indexes and [explain("executionStats")] *)

Definition index_keys : Type := list (field * direction).

Record executionStats : Type := ExecutionStats {
  nReturned : nat;
  totalKeysExamined : nat;
  totalDocsExamined : nat
}.

(** A filter can use an index whose leading key is a field it tests for
    equality. *)
Definition cond_field (c : cond) : option field :=
  match c with
  | GenreEq _ => Some FGenre
  | TitleEq _ => Some FTitle
  | PriceEq _ => Some FPrice
  | InStockEq _ => Some FInStock
  | YearLt _ | YearGt _ => None
  end.

Definition index_serves (f : filter_doc) (ix : index_keys) : bool :=
  match ix with
  | (fld, _) :: _ => existsb (λ c, bool_decide (cond_field c = Some fld)) f
  | [] => false
  end.

(** An index scan examines the matching keys and records only; a
    collection scan examines every record. *)
Definition explain_result (f : filter_doc) (indexes : list index_keys) (books : list book)
  : executionStats :=
  let n := length (List.filter (matches f) books) in
  if existsb (index_serves f) indexes
  then {| nReturned := n; totalKeysExamined := n; totalDocsExamined := n |}
  else {| nReturned := n; totalKeysExamined := 0; totalDocsExamined := length books |}.

(** [createIndex] on keys that are already indexed changes nothing. *)
Definition createIndex_indexes (k : index_keys) (indexes : list index_keys) : list index_keys :=
  if bool_decide (k ∈ indexes) then indexes else indexes ++ [k].

(** The state of the [plp_bookstore.books] collection. *)
Record database : Type := Database {
  books : list book;
  indexes : list index_keys
}.

(** ** The runtime: driver calls, console, exceptions *)

Inductive error : Type :=
  | MongoError (msg : string)
  | MongooseError (msg : string)
  | TypeError (msg : string).


(** A connection handle: a [MongoClient] built from a URI and its options,
    or the connection of the [mongoose] module. *)
Inductive handle : Type :=
  | MongoClient (uri : string) (serverSelectionTimeoutMS : Z)
  | Mongoose.

#[global] Instance handle_eq_dec : EqDecision handle.
Proof. solve_decision. Defined.

(** [client.db(name).collection(name)]: a collection reached through a client. *)
Record collection : Type := Collection {
  coll_client : handle;
  coll_db : string;
  coll_name : string
}.

Inductive receiver : Type :=
  | OnClient (h : handle)
  | OnCollection (c : collection).

Definition handle_of (r : receiver) : handle :=
  match r with OnClient h => h | OnCollection c => coll_client c end.

(** The driver calls of the two scripts. *)
Inductive op : Type :=
  | Connect                                   (* client.connect() *)
  | ConnectTo (uri : option string)           (* mongoose.connect(uri) *)
  | Close                                     (* client.close() *)
  | ToArray (c : cursor)                      (* cursor.toArray() *)
  | Explain (c : cursor)                      (* cursor.explain("executionStats") *)
  | UpdateMany (f : filter_doc) (u : update_doc)
  | DeleteMany (f : filter_doc)
  | Aggregate (p : pipeline)                  (* aggregate(p).toArray() *)
  | CreateIndex (k : index_keys)
  | Indexes.

(** What the console prints: the arguments of a [console.log], the pieces
    of a template literal in order. *)
Inductive jsval : Type :=
  | Str (s : string)
  | Num (n : nat)
  | Dbl (d : double)
  | ToFixed (d : double) (digits : nat)       (* d.toFixed(digits) *)
  | Docs (l : list projected)
  | IndexList (l : list index_keys)
  | Json (s : executionStats)                 (* JSON.stringify(s, null, 2) *)
  | Err (e : error).

Inductive event : Type :=
  | Call (r : receiver) (o : op)
  | ConsoleLog (args : list jsval)
  | ConsoleError (args : list jsval).

Record runtime : Type := Runtime {
  rt_db : database;
  rt_open : list handle;        (* the handles with an open connection *)
  rt_calls : nat;               (* driver calls made so far *)
  rt_trace : list event         (* driver calls and console lines, oldest first *)
}.

Definition boot (d : database) : runtime :=
  {| rt_db := d; rt_open := []; rt_calls := 0; rt_trace := [] |}.

Inductive outcome (A : Type) : Type :=
  | Ret (a : A)
  | Throw (e : error).
Arguments Ret {A} a.
Arguments Throw {A} e.

(** An [async] computation, run to completion: each [await] finishes
    before the next statement starts, so it is a function of the state. *)
Definition M (A : Type) : Type := runtime → outcome A * runtime.

#[global] Instance M_ret : MRet M := λ A a s, (Ret a, s).
#[global] Instance M_bind : MBind M := λ A B f m s,
  match m s with
  | (Ret a, s1) => f a s1
  | (Throw e, s1) => (Throw e, s1)
  end.

Definition throw {A} (e : error) : M A := λ s, (Throw e, s).

Definition emit (ev : event) (s : runtime) : runtime :=
  {| rt_db := rt_db s; rt_open := rt_open s; rt_calls := rt_calls s;
     rt_trace := rt_trace s ++ [ev] |}.

Definition console_log (args : list jsval) : M unit := λ s, (Ret (), emit (ConsoleLog args) s).
Definition console_error (args : list jsval) : M unit := λ s, (Ret (), emit (ConsoleError args) s).

(** [try { body } catch (error) { handler } finally { fin }] *)
Definition try_catch_finally (body : M unit) (handler : error → M unit) (fin : M unit)
  : M unit := λ s,
  match body s with
  | (Ret _, s1) => fin s1
  | (Throw e, s1) =>
      match handler e s1 with
      | (Ret _, s2) => fin s2
      | (Throw e', s2) =>
          match fin s2 with
          | (Ret _, s3) => (Throw e', s3)
          | (Throw e'', s3) => (Throw e'', s3)
          end
      end
  end.

(** [l.forEach(f)] *)
Fixpoint forEach {A} (l : list A) (f : A → M unit) : M unit :=
  match l with
  | [] => mret ()
  | x :: l' => f x;; forEach l' f
  end.

Definition set_db (d : database) (s : runtime) : runtime :=
  {| rt_db := d; rt_open := rt_open s; rt_calls := rt_calls s; rt_trace := rt_trace s |}.

Definition set_open (hs : list handle) (s : runtime) : runtime :=
  {| rt_db := rt_db s; rt_open := hs; rt_calls := rt_calls s; rt_trace := rt_trace s |}.

Definition record_call (r : receiver) (o : op) (s : runtime) : runtime :=
  {| rt_db := rt_db s; rt_open := rt_open s; rt_calls := S (rt_calls s);
     rt_trace := rt_trace s ++ [Call r o] |}.

Section Driver.
(** Any call that reaches the server can fail (network loss, a server
    error, an index conflict): [faults n] is the error the [n]-th driver
    call of a run is rejected with, if it is. *)
Variable faults : nat → option error.

Definition driver_call {A} (r : receiver) (o : op) (sem : runtime → A * runtime) : M A :=
  λ s,
    match faults (rt_calls s) with
    | Some e => (Throw e, record_call r o s)
    | None => let (a, s') := sem (record_call r o s) in (Ret a, s')
    end.

(** A call that reads the collection. *)
Definition reading {A} (f : database → A) : runtime → A * runtime :=
  λ s, (f (rt_db s), s).

Definition connect (h : handle) : M unit :=
  driver_call (OnClient h) Connect (λ s, ((), set_open (h :: rt_open s) s)).

(** A string between double quotes. *)
Definition quoted (s : string) : string :=
  String (Ascii.ascii_of_nat 34) (s +:+ String (Ascii.ascii_of_nat 34) EmptyString).

(** [mongoose.connect(uri)] rejects a [uri] that is not a string before
    it reaches the network.  Every other rejection, of a string that is no
    connection string as of a server that cannot be reached, is one of
    [faults]. *)
Definition mongoose_connect (uri : option string) : M unit :=
  match uri with
  | None =>
      λ s, (Throw (MongooseError
                     ("The `uri` parameter to `openUri()` must be a string, got "
                      +:+ quoted "undefined"
                      +:+ ". Make sure the first parameter to `mongoose.connect()` or `mongoose.createConnection()` is a string.")),
            record_call (OnClient Mongoose) (ConnectTo None) s)
  | Some u =>
      driver_call (OnClient Mongoose) (ConnectTo (Some u))
        (λ s, ((), set_open (Mongoose :: rt_open s) s))
  end.

(** [client.close()] on a client that never connected has nothing to
    release and resolves at once. *)
Definition close (h : handle) : M unit :=
  λ s,
    if bool_decide (h ∈ rt_open s)
    then driver_call (OnClient h) Close
           (λ s, ((), set_open (List.filter (λ h', negb (bool_decide (h' = h))) (rt_open s)) s)) s
    else (Ret (), record_call (OnClient h) Close s).

Definition toArray (c : collection) (q : cursor) : M (list projected) :=
  driver_call (OnCollection c) (ToArray q)
    (reading (λ d, cursor_result q (books d))).

Definition explain (c : collection) (q : cursor) : M executionStats :=
  driver_call (OnCollection c) (Explain q)
    (reading (λ d, explain_result (cur_filter q) (indexes d) (books d))).

Definition updateMany (c : collection) (f : filter_doc) (u : update_doc) : M update_result :=
  driver_call (OnCollection c) (UpdateMany f u)
    (λ s, (updateMany_result f u (books (rt_db s)),
           set_db {| books := updateMany_books f u (books (rt_db s));
                     indexes := indexes (rt_db s) |} s)).

Definition deleteMany (c : collection) (f : filter_doc) : M delete_result :=
  driver_call (OnCollection c) (DeleteMany f)
    (λ s, (deleteMany_result f (books (rt_db s)),
           set_db {| books := deleteMany_books f (books (rt_db s));
                     indexes := indexes (rt_db s) |} s)).

Definition aggregate (c : collection) (p : pipeline) : M (list group_doc) :=
  driver_call (OnCollection c) (Aggregate p)
    (reading (λ d, aggregate_result p (books d))).

Definition createIndex (c : collection) (k : index_keys) : M unit :=
  driver_call (OnCollection c) (CreateIndex k)
    (λ s, ((), set_db {| books := books (rt_db s);
                         indexes := createIndex_indexes k (indexes (rt_db s)) |} s)).

Definition list_indexes (c : collection) : M (list index_keys) :=
  driver_call (OnCollection c) Indexes (reading indexes).
End Driver.

(** ** [connection.js] *)

(** [require("dotenv").config()]: the variables of the [.env] file are
    added to [process.env]; a variable already set keeps its value. *)
Definition dotenv_config (dotenv_file env : gmap string string) : gmap string string :=
  env ∪ dotenv_file.

Section Connector.
Variable faults : nat → option error.
(** [process.env], after [dotenv] has loaded. *)
Variable process_env : gmap string string.

Definition connectDB : M unit :=
  mongoose_connect faults (process_env !! "MONGODB_URI");;
  console_log [Str "connected to mongodb"].
End Connector.

(** ** The query script *)

Definition uri : string := "mongodb://localhost:27017".
Definition client : handle := MongoClient uri 30000.

Definition DB_NAME : string := "plp_bookstore".
Definition COLLECTION_NAME : string := "books".

Definition PAGE_SIZE : nat := 5.

(** A string that starts with a line feed, as ["\n..."] does. *)
Definition nl (s : string) : string := String (Ascii.ascii_of_nat 10) s.

(** [{ projection: { title: 1, author: 1, price: 1, _id: 0 } }] *)
Definition projection : bool := true.

Definition book_line (b : projected) : list jsval :=
  [Str "  - "; Str (proj_title b); Str " by "; Str (proj_author b);
   Str " ($"; Dbl (proj_price b); Str ")"].

(** [x.toFixed(digits)] throws a [TypeError] on an undefined [x]. *)
Definition toFixed (x : option double) (digits : nat) : M jsval :=
  match x with
  | Some d => mret (ToFixed d digits)
  | None => throw (TypeError "Cannot read properties of undefined (reading 'toFixed')")
  end.

(** Reading a property of [arr[0]] throws a [TypeError] when the array is
    empty. *)
Definition deref {A} (x : option A) : M A :=
  match x with
  | Some a => mret a
  | None => throw (TypeError "Cannot read properties of undefined (reading '_id')")
  end.

Definition topAuthors_pipeline : pipeline :=
  {| pipe_key := KeyAuthor; pipe_avg := true;
     pipe_post := [StageSort GAvgPrice Desc; StageLimit 5] |}.

Definition avgPriceByGenre_pipeline : pipeline :=
  {| pipe_key := KeyGenre; pipe_avg := true;
     pipe_post := [StageSort GAvgPrice Desc] |}.

Definition topAuthorByBooks_pipeline : pipeline :=
  {| pipe_key := KeyAuthor; pipe_avg := false;
     pipe_post := [StageSort GCount Desc; StageLimit 1] |}.

Definition booksByDecade_pipeline : pipeline :=
  {| pipe_key := KeyDecade; pipe_avg := false;
     pipe_post := [StageSort GId Asc] |}.

Definition no_authors : list jsval := [Str "No authors found in the collection."].

(** Lines 84-89: the guarded report of the author with most books. *)
Definition report_top_author (topAuthorByBooks : list group_doc) : M unit :=
  if (0 <? length topAuthorByBooks)%nat then
    author ← deref (topAuthorByBooks !! 0%nat);
    console_log [Str "🏆 Author with Most Books: "; Str (grp_id author);
                 Str " ("; Num (totalBooks author); Str " books)"]
  else
    console_log no_authors.

Definition avg_line (a : group_doc) : M unit :=
  fixed ← toFixed (avgPrice a) 2;
  console_log [Str "  - "; Str (grp_id a); Str ": $"; fixed;
               Str " ("; Num (totalBooks a); Str " books)"].

Definition error_line (e : error) : list jsval := [Str "❌ Error occurred:"; Err e].
Definition closed_line : list jsval := [Str "🔌 Connection closed."].

Section QueryRunner.
Variable faults : nat → option error.

Definition try_block : M unit :=
  console_log [Str "Attempting to connect to MongoDB Atlas..."];;
  connect faults client;;
  console_log [Str "✅ Successfully connected to MongoDB Atlas!"];;

  let db := Collection client DB_NAME in
  let booksCollection := db COLLECTION_NAME in

  console_log [Str (nl "--- 1. CRUD OPERATIONS ---")];;

  fantasyBooks ← toArray faults booksCollection
    (find [GenreEq "Fantasy"] projection);
  console_log [Str (nl "📚 Found Fantasy Books:"); Docs fantasyBooks];;

  updateFantasy ← updateMany faults booksCollection
    [GenreEq "Fantasy"] (MulPrice lit_1_1);
  console_log [Str "✏️ Updated "; Num (modifiedCount updateFantasy);
               Str " Fantasy book prices by 10%."];;

  deleteOld ← deleteMany faults booksCollection [YearLt 1950];
  console_log [Str "🗑️ Deleted "; Num (deletedCount deleteOld);
               Str " books published before 1950."];;

  console_log [Str (nl "--- 2. ADVANCED QUERIES ---")];;

  inStockAfter1950 ← toArray faults booksCollection
    (find [InStockEq true; YearGt 1950] projection);
  console_log [Str (nl "📘 Books In Stock & Published After 1950:"); Docs inStockAfter1950];;

  top3Books ← toArray faults booksCollection
    (limit 3 (sort (FPrice, Desc) (find [] projection)));
  console_log [Str (nl "📕 Top 3 Most Expensive Books:"); Docs top3Books];;

  page1 ← toArray faults booksCollection
    (limit PAGE_SIZE (skip 0 (sort (FTitle, Asc) (find [] projection))));
  console_log [Str (nl "📄 Pagination - Page 1 (First 5 Books, Sorted by Title):")];;
  forEach page1 (λ book, console_log (book_line book));;

  page2 ← toArray faults booksCollection
    (limit PAGE_SIZE (skip PAGE_SIZE (sort (FTitle, Asc) (find [] projection))));
  console_log [Str (nl "📄 Pagination - Page 2 (Next 5 Books, Sorted by Title):")];;
  forEach page2 (λ book, console_log (book_line book));;

  console_log [Str (nl "--- 3. AGGREGATION PIPELINE: Top 5 Authors by Avg Book Price ---")];;
  topAuthors ← aggregate faults booksCollection topAuthors_pipeline;
  forEach topAuthors avg_line;;

  console_log [Str (nl "--- 4. AGGREGATION PIPELINE: Average Price by Genre ---")];;
  avgPriceByGenre ← aggregate faults booksCollection avgPriceByGenre_pipeline;
  console_log [Str "📊 Average Book Price by Genre:"];;
  forEach avgPriceByGenre avg_line;;

  console_log [Str (nl "--- 7. AGGREGATION PIPELINE: Author with Most Books ---")];;
  topAuthorByBooks ← aggregate faults booksCollection topAuthorByBooks_pipeline;
  report_top_author topAuthorByBooks;;

  console_log [Str (nl "--- 8. AGGREGATION PIPELINE: Books Grouped by Publication Decade ---")];;
  booksByDecade ← aggregate faults booksCollection booksByDecade_pipeline;
  console_log [Str "📚 Books Grouped by Publication Decade:"];;
  forEach booksByDecade
    (λ d, console_log [Str "  - "; Str (grp_id d); Str ": ";
                       Num (totalBooks d); Str " books"]);;

  console_log [Str (nl "--- 5. INDEXING ---")];;
  createIndex faults booksCollection [(FTitle, Asc)];;
  console_log [Str "✅ Created index on 'title' field."];;

  console_log [Str (nl "--- 6. COMPOUND INDEX ---")];;
  createIndex faults booksCollection [(FAuthor, Asc); (FYear, Asc)];;
  console_log [Str "✅ Created compound index on 'author' and 'published_year' fields."];;

  indexes ← list_indexes faults booksCollection;
  console_log [Str "📄 Current Indexes on 'books' Collection:"; IndexList indexes];;

  console_log [Str (nl "--- 7. SORTING ---")];;
  booksAsc ← toArray faults booksCollection
    (sort (FPrice, Asc) (find [] projection));
  console_log [Str (nl "⬆️ Books Sorted by Price (Ascending):")];;
  forEach booksAsc (λ book, console_log (book_line book));;

  booksDesc ← toArray faults booksCollection
    (sort (FPrice, Desc) (find [] projection));
  console_log [Str (nl "⬇️ Books Sorted by Price (Descending):")];;
  forEach booksDesc (λ book, console_log (book_line book));;

  console_log [Str (nl "--- 8. INDEX PERFORMANCE TEST (Using explain()) ---")];;

  indexedExplain ← explain faults booksCollection
    (find [TitleEq "The Alchemist"] false);
  console_log [Str (nl "📊 Indexed Query Explain Plan:")];;
  console_log [Json indexedExplain];;

  nonIndexedExplain ← explain faults booksCollection
    (find [PriceEq lit_10_99] false);
  console_log [Str (nl "📉 Non-Indexed Query Explain Plan:")];;
  console_log [Json nonIndexedExplain];;

  console_log [Str (nl "✅ Query execution complete.")].

Definition executeQueries : M unit :=
  try_catch_finally
    try_block
    (λ error, console_error (error_line error))
    (close faults client;;
     console_log closed_line).
End QueryRunner.

(** ** Observations on a run *)

Definition emit_all (evs : list event) (s : runtime) : runtime :=
  {| rt_db := rt_db s; rt_open := rt_open s; rt_calls := rt_calls s;
     rt_trace := rt_trace s ++ evs |}.

(** The driver calls of a trace, oldest first. *)
Definition call_of (ev : event) : option (receiver * op) :=
  match ev with Call r o => Some (r, o) | _ => None end.
Definition calls_of (tr : list event) : list (receiver * op) := omap call_of tr.

(** The lines [console.error] printed. *)
Definition error_of (ev : event) : option (list jsval) :=
  match ev with ConsoleError args => Some args | _ => None end.
Definition errors_of (tr : list event) : list (list jsval) := omap error_of tr.


(** The cursors read with [toArray]. *)
Definition read_of (ev : event) : option cursor :=
  match ev with Call _ (ToArray q) => Some q | _ => None end.
Definition reads_of (tr : list event) : list cursor := omap read_of tr.

(** A read is paginated when it has both an offset and a limit. *)
Definition paginated (q : cursor) : bool :=
  bool_decide (is_Some (cur_skip q)) && bool_decide (is_Some (cur_limit q)).


Definition booksCollection : collection := Collection client DB_NAME COLLECTION_NAME.

Definition inStockAfter1950_cursor : cursor :=
  find [InStockEq true; YearGt 1950] projection.
Definition top3Books_cursor : cursor :=
  limit 3 (sort (FPrice, Desc) (find [] projection)).
Definition page1_cursor : cursor :=
  limit PAGE_SIZE (skip 0 (sort (FTitle, Asc) (find [] projection))).
Definition page2_cursor : cursor :=
  limit PAGE_SIZE (skip PAGE_SIZE (sort (FTitle, Asc) (find [] projection))).
Definition by_title_cursor : cursor := sort (FTitle, Asc) (find [] projection).

(** The driver calls of the [try] block, in textual order. *)
Definition script_calls : list (receiver * op) :=
  [ (OnClient client, Connect);
    (OnCollection booksCollection, ToArray (find [GenreEq "Fantasy"] projection));
    (OnCollection booksCollection, UpdateMany [GenreEq "Fantasy"] (MulPrice lit_1_1));
    (OnCollection booksCollection, DeleteMany [YearLt 1950]);
    (OnCollection booksCollection, ToArray inStockAfter1950_cursor);
    (OnCollection booksCollection, ToArray top3Books_cursor);
    (OnCollection booksCollection, ToArray page1_cursor);
    (OnCollection booksCollection, ToArray page2_cursor);
    (OnCollection booksCollection, Aggregate topAuthors_pipeline);
    (OnCollection booksCollection, Aggregate avgPriceByGenre_pipeline);
    (OnCollection booksCollection, Aggregate topAuthorByBooks_pipeline);
    (OnCollection booksCollection, Aggregate booksByDecade_pipeline);
    (OnCollection booksCollection, CreateIndex [(FTitle, Asc)]);
    (OnCollection booksCollection, CreateIndex [(FAuthor, Asc); (FYear, Asc)]);
    (OnCollection booksCollection, Indexes);
    (OnCollection booksCollection, ToArray (sort (FPrice, Asc) (find [] projection)));
    (OnCollection booksCollection, ToArray (sort (FPrice, Desc) (find [] projection)));
    (OnCollection booksCollection, Explain (find [TitleEq "The Alchemist"] false));
    (OnCollection booksCollection, Explain (find [PriceEq lit_10_99] false)) ].

Definition close_call : receiver * op := (OnClient client, Close).

(** The first of the driver calls [from], [from + 1], ..., [from + n - 1]
    that is rejected, with its error. *)
Fixpoint first_fault (faults : nat → option error) (from n : nat) : option (nat * error) :=
  match n with
  | O => None
  | S n' =>
      match faults from with
      | Some e => Some (from, e)
      | None => first_fault faults (S from) n'
      end
  end.

Definition no_faults : nat → option error := λ _, None.

(** The number of positions at which two states of the collection differ. *)
Definition changed_count (before after : list book) : nat :=
  length (List.filter (λ p : book * book, negb (bool_decide (p.1 = p.2))) (zip before after)).

Definition total_count (docs : list group_doc) : nat := sum_list (totalBooks <$> docs).

Definition projected_le (a b : projected) : bool := String.leb (proj_title a) (proj_title b).

Definition group_sizes (gs : list (string * list book)) : nat :=
  sum_list ((λ g, length g.2) <$> gs).

(** What [report_top_author] prints. *)
Definition top_author_report (topAuthorByBooks : list group_doc) : list jsval :=
  match topAuthorByBooks with
  | [] => no_authors
  | author :: _ =>
      [Str "🏆 Author with Most Books: "; Str (grp_id author);
       Str " ("; Num (totalBooks author); Str " books)"]
  end.

(** What [avg_line] prints for a group that has an [avgPrice]. *)
Definition avg_event (a : group_doc) : event :=
  ConsoleLog [Str "  - "; Str (grp_id a); Str ": $";
              ToFixed (default S754_nan (avgPrice a)) 2;
              Str " ("; Num (totalBooks a); Str " books)"].

(** The [finally] block of [executeQueries]. *)
Definition finally_block (faults : nat → option error) : M unit :=
  close faults client;; console_log closed_line.

(** The collection after the price update, and after the delete that
    follows it. *)
Definition books_updated (d : database) : list book :=
  updateMany_books [GenreEq "Fantasy"] (MulPrice lit_1_1) (books d).
Definition books_deleted (d : database) : list book :=
  deleteMany_books [YearLt 1950] (books_updated d).

Definition updated_line (d : database) : event :=
  ConsoleLog [Str "✏️ Updated ";
              Num (modifiedCount (updateMany_result [GenreEq "Fantasy"] (MulPrice lit_1_1) (books d)));
              Str " Fantasy book prices by 10%."].
Definition deleted_line (d : database) : event :=
  ConsoleLog [Str "🗑️ Deleted ";
              Num (deletedCount (deleteMany_result [YearLt 1950] (books_updated d)));
              Str " books published before 1950."].
Definition top_author_line (d : database) : event :=
  ConsoleLog (top_author_report (aggregate_result topAuthorByBooks_pipeline (books_deleted d))).

(** What holds of the state the [try] block ends in, after [made] driver
    calls of which the first [ok] succeeded. *)
Definition try_facts (d : database) (ok made : nat) (s : runtime) : Prop :=
  rt_calls s = made ∧
  calls_of (rt_trace s) = take made script_calls ∧
  errors_of (rt_trace s) = [] ∧
  rt_open s = (if (ok =? 0)%nat then [] else [client]) ∧
  books (rt_db s) = (if (ok <=? 2)%nat then books d
                     else if (ok =? 3)%nat then books_updated d
                     else books_deleted d) ∧
  ((2 < ok)%nat → updated_line d ∈ rt_trace s) ∧
  ((3 < ok)%nat → deleted_line d ∈ rt_trace s) ∧
  ((10 < ok)%nat → top_author_line d ∈ rt_trace s).

(** The outcome of the [try] block, given the first rejected call. *)
Definition try_post (ff : option (nat * error)) (d : database)
    (r : outcome () * runtime) : Prop :=
  match ff with
  | Some (k, e) => r.1 = Throw e ∧ try_facts d k (S k) r.2
  | None => r.1 = Ret () ∧ try_facts d (length script_calls) (length script_calls) r.2
  end.

(** What is known of a trace while it grows: its driver calls, that no
    error was printed, and some of the events it holds. *)
Definition trace_inv (calls : list (receiver * op)) (lines tr : list event) : Prop :=
  calls_of tr = calls ∧ errors_of tr = [] ∧ lines ⊆ tr.

(** The driver calls the [try] block made, and how many of them succeeded,
    given its first rejected call. *)
Definition made_of (ff : option (nat * error)) : nat :=
  match ff with Some (k, _) => S k | None => length script_calls end.
Definition ok_of (ff : option (nat * error)) : nat :=
  match ff with Some (k, _) => k | None => length script_calls end.

(** What holds of a whole run of [executeQueries]. *)
Definition run_post (faults : nat → option error) (d : database)
    (r : outcome () * runtime) : Prop :=
  let ff := first_fault faults 0 (length script_calls) in
  let tr := rt_trace r.2 in
  calls_of tr = take (made_of ff) script_calls ++ [close_call] ∧
  errors_of tr = match ff with Some (_, e) => [error_line e] | None => [] end ∧
  books (rt_db r.2) = (if (ok_of ff <=? 2)%nat then books d
                       else if (ok_of ff =? 3)%nat then books_updated d
                       else books_deleted d) ∧
  ((2 < ok_of ff)%nat → updated_line d ∈ tr) ∧
  ((3 < ok_of ff)%nat → deleted_line d ∈ tr) ∧
  ((10 < ok_of ff)%nat → top_author_line d ∈ tr) ∧
  match (if (ok_of ff =? 0)%nat then None else faults (made_of ff)) with
  | None =>
      r.1 = Ret () ∧ rt_open r.2 = [] ∧
      ∃ tr', tr = tr' ++ [Call (OnClient client) Close; ConsoleLog closed_line]
  | Some e' =>
      r.1 = Throw e' ∧ rt_open r.2 = [client] ∧
      ∃ tr', tr = tr' ++ [Call (OnClient client) Close]
  end.

(** ** Sample data *)

Definition empty_db : database := {| books := []; indexes := [[(FId, Asc)]] |}.

Definition fantasy (i : nat) (p : Z) : book :=
  {| _id := i; title := "Book"; author := "Author"; genre := "Fantasy";
     price := double_of_Z p; published_year := 2000; in_stock := true |}.

(** Three Fantasy records priced 10, 20 and 30. *)
Definition seeded_db : database :=
  {| books := [fantasy 1 10; fantasy 2 20; fantasy 3 30]; indexes := [[(FId, Asc)]] |}.

Definition titled (i : nat) (t a : string) : book :=
  {| _id := i; title := t; author := a; genre := "Fiction";
     price := double_of_Z 10; published_year := 2000; in_stock := true |}.

(** Eleven records with distinct titles. *)
Definition eleven_books : list book :=
  [ titled 1 "K" "a"; titled 2 "J" "a"; titled 3 "I" "a"; titled 4 "H" "a";
    titled 5 "G" "a"; titled 6 "F" "a"; titled 7 "E" "a"; titled 8 "D" "a";
    titled 9 "C" "a"; titled 10 "B" "a"; titled 11 "A" "a" ].

(** Six records by six authors. *)
Definition six_authors : list book :=
  [ titled 1 "T1" "a1"; titled 2 "T2" "a2"; titled 3 "T3" "a3";
    titled 4 "T4" "a4"; titled 5 "T5" "a5"; titled 6 "T6" "a6" ].

(** One record published before 1950: the delete step empties the collection. *)
Definition old_db : database :=
  {| books := [ {| _id := 1; title := "Ulysses"; author := "James Joyce";
                   genre := "Fiction"; price := double_of_Z 15;
                   published_year := 1922; in_stock := true |} ];
     indexes := [[(FId, Asc)]] |}.

Definition sample_env : gmap string string :=
  {[ "MONGODB_URI" := "mongodb://localhost:27017" ]}.

(** The server cannot be reached: the first driver call is rejected. *)
Definition refused : nat → option error :=
  λ n, match n with O => Some (MongoError "connect ECONNREFUSED 127.0.0.1:27017") | S _ => None end.


(** ** The console lines of a complete run *)

Definition asc_cursor : cursor := sort (FPrice, Asc) (find [] projection).
Definition desc_cursor : cursor := sort (FPrice, Desc) (find [] projection).

Definition title_index : index_keys := [(FTitle, Asc)].
Definition compound_index : index_keys := [(FAuthor, Asc); (FYear, Asc)].

(** The indexes of the collection after the two [createIndex] calls. *)
Definition indexes_created (ix : list index_keys) : list index_keys :=
  createIndex_indexes compound_index (createIndex_indexes title_index ix).

Definition found_line (d : database) : event :=
  ConsoleLog [Str (nl "📚 Found Fantasy Books:");
              Docs (cursor_result (find [GenreEq "Fantasy"] projection) (books d))].
Definition in_stock_line (d : database) : event :=
  ConsoleLog [Str (nl "📘 Books In Stock & Published After 1950:");
              Docs (cursor_result inStockAfter1950_cursor (books_deleted d))].
Definition top3_line (d : database) : event :=
  ConsoleLog [Str (nl "📕 Top 3 Most Expensive Books:");
              Docs (cursor_result top3Books_cursor (books_deleted d))].
Definition index_line (d : database) : event :=
  ConsoleLog [Str "📄 Current Indexes on 'books' Collection:";
              IndexList (indexes_created (indexes d))].
Definition indexedExplain_line (d : database) : event :=
  ConsoleLog [Json (explain_result [TitleEq "The Alchemist"]
                      (indexes_created (indexes d)) (books_deleted d))].
Definition nonIndexedExplain_line (d : database) : event :=
  ConsoleLog [Json (explain_result [PriceEq lit_10_99]
                      (indexes_created (indexes d)) (books_deleted d))].

(** The lines a [forEach] over books, and over decade groups, prints. *)
Definition book_lines (l : list projected) : list event :=
  (λ b, ConsoleLog (book_line b)) <$> l.
Definition decade_lines (docs : list group_doc) : list event :=
  (λ g, ConsoleLog [Str "  - "; Str (grp_id g); Str ": ";
                    Num (totalBooks g); Str " books"]) <$> docs.

(** What a run has printed, and the indexes it has created, once the
    first [ok] driver calls have succeeded.  A block of lines printed by
    one [forEach] is in the trace in order. *)
Definition transcript_facts (d : database) (ok : nat) (s : runtime) : Prop :=
  let tr := rt_trace s in
  let after := books_deleted d in
  indexes (rt_db s)
  = (if (ok <=? 12)%nat then indexes d
     else if (ok =? 13)%nat then createIndex_indexes title_index (indexes d)
     else indexes_created (indexes d)) ∧
  ((1 < ok)%nat → found_line d ∈ tr) ∧
  ((4 < ok)%nat → in_stock_line d ∈ tr) ∧
  ((5 < ok)%nat → top3_line d ∈ tr) ∧
  ((6 < ok)%nat → book_lines (cursor_result page1_cursor after) `sublist_of` tr) ∧
  ((7 < ok)%nat → book_lines (cursor_result page2_cursor after) `sublist_of` tr) ∧
  ((8 < ok)%nat → avg_event <$> aggregate_result topAuthors_pipeline after `sublist_of` tr) ∧
  ((9 < ok)%nat →
   avg_event <$> aggregate_result avgPriceByGenre_pipeline after `sublist_of` tr) ∧
  ((11 < ok)%nat →
   decade_lines (aggregate_result booksByDecade_pipeline after) `sublist_of` tr) ∧
  ((14 < ok)%nat → index_line d ∈ tr) ∧
  ((15 < ok)%nat → book_lines (cursor_result asc_cursor after) `sublist_of` tr) ∧
  ((16 < ok)%nat → book_lines (cursor_result desc_cursor after) `sublist_of` tr) ∧
  ((17 < ok)%nat → indexedExplain_line d ∈ tr) ∧
  ((18 < ok)%nat → nonIndexedExplain_line d ∈ tr).

Definition transcript_post (ff : option (nat * error)) (d : database)
    (r : outcome () * runtime) : Prop :=
  transcript_facts d (ok_of ff) r.2.

(** The blocks of events known to be in a trace, each in order. *)
Definition blocks_inv (blocks : list (list event)) (tr : list event) : Prop :=
  Forall (λ b, b `sublist_of` tr) blocks.

(** A group holds, in collection order, the records that have its key. *)
Definition members_of (k : group_key) (books : list book) (g : string * list book) : Prop :=
  g.2 = List.filter (λ b, String.eqb (key_of k b) g.1) books.

(** The number of records with a given key. *)
Definition count_key (k : group_key) (key : string) (books : list book) : nat :=
  length (List.filter (λ b, String.eqb (key_of k b) key) books).

(** The orders of the two price listings. *)
Definition price_asc (a b : projected) : bool := double_le (proj_price a) (proj_price b).
Definition price_desc (a b : projected) : bool := double_le (proj_price b) (proj_price a).

(** What a [$group] stage outputs: one document per key that occurs, with
    the number of records that have the key and, when asked for, the
    average of their prices taken in collection order. *)
Definition group_doc_ok (with_avg : bool) (k : group_key) (books : list book)
    (g : group_doc) : Prop :=
  let members := List.filter (λ b, String.eqb (key_of k b) (grp_id g)) books in
  totalBooks g = count_key k (grp_id g) books ∧
  (0 < totalBooks g)%nat ∧
  avgPrice g = (if with_avg then Some (avg (price <$> members)) else None).

(** The part of it that is about the counts. *)
Definition group_count_ok (k : group_key) (books : list book) (g : group_doc) : Prop :=
  totalBooks g = count_key k (grp_id g) books ∧ (0 < totalBooks g)%nat.


(** * Facts about the model of the driver *)

Local Close Scope Z_scope.
Local Open Scope nat_scope.

(** ** The model on small inputs *)

Example multiply_10 : double_mul (double_of_Z 10) lit_1_1 = double_of_Z 11.
Proof. reflexivity. Qed.

(** [3 * 1.1] is [3.3000000000000003] in binary64. *)
Example multiply_3 :
  double_mul (double_of_Z 3) lit_1_1 = S754_finite false 7430939385161319 (-51).
Proof. reflexivity. Qed.

Example decade_of_1997 : decade_of 1997 = "1990s".
Proof. reflexivity. Qed.

Example titles_sorted :
  proj_title <$> cursor_result by_title_cursor eleven_books
  = ["A"; "B"; "C"; "D"; "E"; "F"; "G"; "H"; "I"; "J"; "K"].
Proof. reflexivity. Qed.

Example second_page :
  proj_title <$> cursor_result page2_cursor eleven_books = ["F"; "G"; "H"; "I"; "J"].
Proof. reflexivity. Qed.

Example authors_by_count :
  (λ g, (grp_id g, totalBooks g))
    <$> aggregate_result topAuthorByBooks_pipeline (books seeded_db)
  = [("Author", 3)].
Proof. reflexivity. Qed.

Example seeded_run_calls :
  calls_of (rt_trace (executeQueries no_faults (boot seeded_db)).2)
  = script_calls ++ [close_call].
Proof. by vm_compute. Qed.

Example seeded_run_closes :
  rt_open (executeQueries no_faults (boot seeded_db)).2 = [].
Proof. by vm_compute. Qed.

Section SortingFacts.
Context {A : Type} (le : A → A → bool).
Hypothesis le_total : ∀ a b, le a b = false → le b a = true.

Lemma insert_sorted_perm x l : insert_sorted le x l ≡ₚ x :: l.
Proof.
  induction l as [|y l IH]; simpl; [done|].
  destruct (le x y); [done|]. by rewrite IH, Permutation_swap.
Qed.

Lemma sort_by_perm l : sort_by le l ≡ₚ l.
Proof.
  induction l as [|x l IH]; simpl; [done|].
  by rewrite insert_sorted_perm, IH.
Qed.

Lemma sort_by_length l : length (sort_by le l) = length l.
Proof. by rewrite sort_by_perm. Qed.

Lemma sorted_cons_inv x l : sorted le (x :: l) = true → sorted le l = true.
Proof. destruct l; simpl; [done|]. by intros [_ ?]%andb_prop. Qed.

Lemma insert_sorted_sorted x l :
  sorted le l = true → sorted le (insert_sorted le x l) = true.
Proof.
  induction l as [|y l IH]; intros Hl; [done|].
  simpl. destruct (le x y) eqn:Hxy.
  - change (le x y && sorted le (y :: l) = true). by rewrite Hxy, Hl.
  - specialize (IH (sorted_cons_inv _ _ Hl)).
    destruct l as [|z l]; simpl in *.
    + by rewrite (le_total _ _ Hxy).
    + destruct (le x z) eqn:Hxz.
      * by rewrite (le_total _ _ Hxy), IH.
      * apply andb_prop in Hl as [-> _]. by rewrite IH.
Qed.

Lemma sort_by_sorted l : sorted le (sort_by le l) = true.
Proof.
  induction l as [|x l IH]; [done|]. simpl. by apply insert_sorted_sorted.
Qed.

(** Sorting a sorted list changes nothing. *)
Lemma sort_by_id l : sorted le l = true → sort_by le l = l.
Proof.
  induction l as [|x l IH]; intros Hl; [done|].
  simpl. rewrite IH by (by eapply sorted_cons_inv).
  destruct l as [|y l]; [done|]. simpl in *.
  by apply andb_prop in Hl as [-> _].
Qed.

Lemma sorted_take n l : sorted le l = true → sorted le (take n l) = true.
Proof.
  revert l. induction n as [|n IH]; intros [|x l] Hl; try done.
  specialize (IH l (sorted_cons_inv _ _ Hl)).
  destruct l as [|y l]; [by destruct n|].
  destruct n as [|n]; [done|].
  simpl in *. apply andb_prop in Hl as [-> _]. exact IH.
Qed.
End SortingFacts.

Lemma sorted_fmap {A B} (le : A → A → bool) (le' : B → B → bool) (f : A → B) l :
  (∀ a b, le' (f a) (f b) = le a b) →
  sorted le l = true → sorted le' (f <$> l) = true.
Proof.
  intros Hf. induction l as [|x l IH]; [done|].
  intros Hl. specialize (IH (sorted_cons_inv _ _ _ Hl)).
  destruct l as [|y l]; [done|]. simpl in *.
  apply andb_prop in Hl as [Hxy _]. by rewrite Hf, Hxy.
Qed.

Lemma title_le_total a b :
  book_le (FTitle, Asc) a b = false → book_le (FTitle, Asc) b a = true.
Proof.
  simpl. intros H. destruct (String.leb_total (title a) (title b)); congruence.
Qed.

Lemma projected_le_project a b :
  projected_le (project a) (project b) = book_le (FTitle, Asc) a b.
Proof. reflexivity. Qed.

Lemma filter_all (books : list book) : List.filter (matches []) books = books.
Proof. induction books as [|b l IH]; simpl; [done|]. by rewrite IH. Qed.

(** ** Grouping *)

Lemma group_sizes_cons g gs : group_sizes (g :: gs) = length g.2 + group_sizes gs.
Proof. reflexivity. Qed.

Lemma add_to_group_sizes k b gs :
  group_sizes (add_to_group k b gs) = S (group_sizes gs).
Proof.
  induction gs as [|[k' bs] gs IH]; [done|].
  simpl. destruct (String.eqb k k').
  - rewrite !group_sizes_cons. simpl. rewrite length_app. simpl. lia.
  - rewrite !group_sizes_cons, IH. lia.
Qed.

Lemma add_to_group_length k b gs :
  length gs ≤ length (add_to_group k b gs).
Proof.
  induction gs as [|[k' bs] gs IH]; simpl; [lia|].
  destruct (String.eqb k k'); simpl; lia.
Qed.

Lemma group_by_sizes k books : group_sizes (group_by k books) = length books.
Proof.
  unfold group_by.
  cut (∀ acc, group_sizes (fold_left (λ gs b, add_to_group (key_of k b) b gs) books acc)
              = length books + group_sizes acc).
  { intros H. rewrite H. unfold group_sizes. simpl. lia. }
  clear.
  induction books as [|b l IH]; intros acc; simpl; [done|].
  rewrite IH, add_to_group_sizes. lia.
Qed.

Lemma group_by_nil k : group_by k [] = [].
Proof. reflexivity. Qed.

Lemma total_count_group_docs with_avg gs :
  total_count (group_doc_of with_avg <$> gs) = group_sizes gs.
Proof.
  unfold total_count, group_sizes. rewrite <- list_fmap_compose. reflexivity.
Qed.

Lemma total_count_perm docs docs' : docs ≡ₚ docs' → total_count docs = total_count docs'.
Proof.
  unfold total_count.
  induction 1 as [|d l l' _ IH|d d' l|l l' l'' _ IH1 _ IH2]; cbn [fmap list_fmap sum_list sum_list_with].
  - done.
  - by rewrite IH.
  - unfold id. lia.
  - congruence.
Qed.

Lemma total_count_cons d docs : total_count (d :: docs) = totalBooks d + total_count docs.
Proof. reflexivity. Qed.

Lemma total_count_take n docs : total_count (take n docs) ≤ total_count docs.
Proof.
  revert n. induction docs as [|d l IH]; intros [|n];
    rewrite ?firstn_nil, ?firstn_O, ?firstn_cons, ?total_count_cons; try lia.
  - unfold total_count. simpl. lia.
  - specialize (IH n). lia.
Qed.

Lemma run_stage_count st docs : total_count (run_stage st docs) ≤ total_count docs.
Proof.
  destruct st as [f d|n]; simpl.
  - by rewrite (total_count_perm _ _ (sort_by_perm _ docs)).
  - apply total_count_take.
Qed.

Lemma run_stage_length st docs : length (run_stage st docs) ≤ length docs.
Proof.
  destruct st as [f d|n]; simpl.
  - by rewrite sort_by_length.
  - rewrite length_take. lia.
Qed.

Lemma run_stages_count post docs :
  total_count (foldl (λ docs st, run_stage st docs) docs post) ≤ total_count docs.
Proof.
  revert docs. induction post as [|st post IH]; intros docs; simpl; [done|].
  etransitivity; [apply IH|apply run_stage_count].
Qed.

(** A pipeline loses no group when each of its limits is at least the
    number of groups. *)
Lemma run_stages_count_eq post docs :
  Forall (λ st, match st with StageLimit n => length docs ≤ n | _ => True end) post →
  total_count (foldl (λ docs st, run_stage st docs) docs post) = total_count docs.
Proof.
  revert docs. induction post as [|st post IH]; intros docs Hpost; simpl; [done|].
  apply Forall_cons in Hpost as [Hst Hpost].
  rewrite IH.
  - destruct st as [f d|n]; simpl.
    + apply total_count_perm, sort_by_perm.
    + by rewrite take_ge.
  - eapply Forall_impl; [exact Hpost|].
    intros [f d|n]; [done|]. pose proof (run_stage_length st docs). lia.
Qed.

Lemma aggregate_count_le p books :
  total_count (aggregate_result p books) ≤ length books.
Proof.
  unfold aggregate_result. etransitivity; [apply run_stages_count|].
  by rewrite total_count_group_docs, group_by_sizes.
Qed.

Lemma aggregate_count_eq p books :
  Forall (λ st, match st with
                | StageLimit n => length (group_by (pipe_key p) books) ≤ n
                | _ => True
                end) (pipe_post p) →
  total_count (aggregate_result p books) = length books.
Proof.
  intros H. unfold aggregate_result. rewrite run_stages_count_eq.
  - by rewrite total_count_group_docs, group_by_sizes.
  - by rewrite length_fmap.
Qed.

(** A [$group] stage with [$avg] gives every group an [avgPrice]; sorting
    and limiting keep it. *)
Lemma run_stages_Forall (P : group_doc → Prop) post docs :
  Forall P docs → Forall P (foldl (λ docs st, run_stage st docs) docs post).
Proof.
  revert docs. induction post as [|st post IH]; intros docs H; simpl; [done|].
  apply IH. destruct st as [f d|n]; simpl.
  - by rewrite sort_by_perm.
  - by apply Forall_take.
Qed.

Lemma aggregate_avg_Some p books :
  pipe_avg p = true →
  Forall (λ a, is_Some (avgPrice a)) (aggregate_result p books).
Proof.
  intros Hp. apply run_stages_Forall, Forall_fmap, Forall_forall.
  intros g _. simpl. rewrite Hp. by eexists.
Qed.

Lemma aggregate_nil p : aggregate_result p [] = [].
Proof.
  unfold aggregate_result. rewrite group_by_nil. simpl.
  induction (pipe_post p) as [|st post IH]; simpl; [done|].
  by destruct st as [f d|[|n]].
Qed.

(** ** Writes *)

Lemma updateMany_books_length f u books :
  length (updateMany_books f u books) = length books.
Proof. apply length_fmap. Qed.

Lemma updateMany_books_lookup f u books i :
  updateMany_books f u books !! i = update_one f u <$> books !! i.
Proof. apply list_lookup_fmap. Qed.

Lemma is_modified_changed f u b :
  is_modified f u b = negb (bool_decide (b = update_one f u b)).
Proof.
  unfold is_modified, update_one. destruct (matches f b); simpl.
  - f_equal. apply bool_decide_ext. split; congruence.
  - by rewrite bool_decide_true.
Qed.

Lemma modifiedCount_changed f u books :
  modifiedCount (updateMany_result f u books)
  = changed_count books (updateMany_books f u books).
Proof.
  unfold changed_count, updateMany_books. simpl.
  induction books as [|b l IH]; [done|].
  cbn [fmap list_fmap zip zip_with List.filter fst snd].
  rewrite is_modified_changed.
  destruct (negb (bool_decide (b = update_one f u b))); simpl; by rewrite IH.
Qed.

Lemma deleteMany_books_year y books :
  Forall (λ b, (y ≤ published_year b)%Z) (deleteMany_books [YearLt y] books).
Proof.
  unfold deleteMany_books. apply Forall_forall. intros b Hb.
  apply list_elem_of_In, filter_In in Hb as [_ Hb].
  unfold matches in Hb. simpl in Hb. rewrite andb_true_r in Hb.
  apply negb_true_iff, Z.ltb_ge in Hb. exact Hb.
Qed.

Lemma deleteMany_count f books :
  deletedCount (deleteMany_result f books) + length (deleteMany_books f books)
  = length books.
Proof. apply filter_length. Qed.

(** ** Pages *)

Lemma by_title_books books :
  cursor_books by_title_cursor books = sort_by (book_le (FTitle, Asc)) books.
Proof. unfold cursor_books. simpl. by rewrite filter_all. Qed.

Lemma page1_books books :
  cursor_books page1_cursor books = take 5 (cursor_books by_title_cursor books).
Proof. unfold cursor_books. simpl. by rewrite filter_all. Qed.

Lemma page2_books books :
  cursor_books page2_cursor books = take 5 (drop 5 (cursor_books by_title_cursor books)).
Proof. unfold cursor_books. simpl. by rewrite filter_all. Qed.

Lemma pages_books books :
  cursor_books page1_cursor books ++ cursor_books page2_cursor books
  = take 10 (cursor_books by_title_cursor books).
Proof. rewrite page1_books, page2_books. apply (take_take_drop _ 5 5). Qed.


(** ** The orders the server sorts by

    Strings are compared as [String.leb] does, doubles by [double_le];
    both orders are total and transitive. *)

Lemma string_leb_total a b : String.leb a b = false → String.leb b a = true.
Proof. intros H. destruct (String.leb_total a b); congruence. Qed.

Lemma ascii_compare_trans a b c :
  Ascii.compare a b ≠ Gt → Ascii.compare b c ≠ Gt →
  Ascii.compare a c ≠ Gt ∧
  (Ascii.compare a c = Eq → Ascii.compare a b = Eq ∧ Ascii.compare b c = Eq).
Proof.
  unfold Ascii.compare.
  destruct (N.compare_spec (Ascii.N_of_ascii a) (Ascii.N_of_ascii b)),
    (N.compare_spec (Ascii.N_of_ascii b) (Ascii.N_of_ascii c)),
    (N.compare_spec (Ascii.N_of_ascii a) (Ascii.N_of_ascii c));
    try done; lia.
Qed.

Lemma string_compare_trans s1 s2 s3 :
  String.compare s1 s2 ≠ Gt → String.compare s2 s3 ≠ Gt → String.compare s1 s3 ≠ Gt.
Proof.
  revert s2 s3. induction s1 as [|a s1 IH]; intros [|b s2] [|c s3]; simpl; try done.
  intros H12 H23.
  assert (Hab : Ascii.compare a b ≠ Gt) by (by destruct (Ascii.compare a b)).
  assert (Hbc : Ascii.compare b c ≠ Gt) by (by destruct (Ascii.compare b c)).
  destruct (ascii_compare_trans a b c Hab Hbc) as [Hac Heq].
  destruct (Ascii.compare a c) eqn:Hc; [|done|done].
  destruct (Heq eq_refl) as [Hab' Hbc']. rewrite Hab' in H12. rewrite Hbc' in H23.
  by apply (IH s2 s3).
Qed.

Lemma string_leb_trans s1 s2 s3 :
  String.leb s1 s2 = true → String.leb s2 s3 = true → String.leb s1 s3 = true.
Proof.
  unfold String.leb. intros H12 H23.
  pose proof (string_compare_trans s1 s2 s3) as H.
  destruct (String.compare s1 s2), (String.compare s2 s3), (String.compare s1 s3);
    try done; exfalso; by apply H.
Qed.

Lemma SFcompare_antisym a b : SFcompare b a = CompOpp <$> SFcompare a b.
Proof.
  destruct a as [[]|[]| |[] m1 e1], b as [[]|[]| |[] m2 e2]; try reflexivity; simpl;
    rewrite (Z.compare_antisym e1 e2); destruct (e1 ?= e2)%Z; simpl; try reflexivity;
    rewrite ?CompOpp_involutive; f_equal;
    by rewrite Pos.compare_cont_antisym.
Qed.

Lemma SFcompare_None a b : SFcompare a b = None → is_nan a = true ∨ is_nan b = true.
Proof. destruct a as [[]|[]| |[] m1 e1], b as [[]|[]| |[] m2 e2]; simpl; auto; discriminate. Qed.

Lemma double_le_total a b : double_le a b = false → double_le b a = true.
Proof.
  unfold double_le, SFleb. rewrite (SFcompare_antisym a b).
  destruct (SFcompare a b) as [[]|] eqn:Hab; simpl.
  - by rewrite orb_true_r.
  - by rewrite orb_true_r.
  - intros _. apply orb_true_r.
  - destruct (SFcompare_None _ _ Hab) as [->| ->]; [done|]. done.
Qed.

Lemma price_le_total d a b : book_le (FPrice, d) a b = false → book_le (FPrice, d) b a = true.
Proof. destruct d; simpl; apply double_le_total. Qed.

Lemma SFleb_trans a b c : SFleb a b = true → SFleb b c = true → SFleb a c = true.
Proof.
  unfold SFleb.
  destruct a as [[]|[]| |[] m1 e1], b as [[]|[]| |[] m2 e2], c as [[]|[]| |[] m3 e3];
    simpl; try done;
    change (Pos.compare_cont Eq) with Pos.compare;
    destruct (Z.compare_spec e1 e2), (Z.compare_spec e2 e3), (Z.compare_spec e1 e3);
    simpl; try done; try lia;
    destruct (Pos.compare_spec m1 m2), (Pos.compare_spec m2 m3), (Pos.compare_spec m1 m3);
    simpl; try done; lia.
Qed.

Lemma SFleb_nan a b : SFleb a b = true → is_nan b = false.
Proof. unfold SFleb. by destruct a as [[]|[]| |[] m1 e1], b as [[]|[]| |[] m2 e2]. Qed.

Lemma double_le_trans a b c :
  double_le a b = true → double_le b c = true → double_le a c = true.
Proof.
  unfold double_le. destruct (is_nan a) eqn:Ha; [done|]. simpl.
  intros Hab. rewrite (SFleb_nan _ _ Hab). simpl. by apply SFleb_trans.
Qed.

Lemma book_le_total s a b : book_le s a b = false → book_le s b a = true.
Proof.
  destruct s as [f []]; destruct f; simpl;
    try apply double_le_total;
    try (intros H; match goal with
                   | |- String.leb ?x ?y = true =>
                       destruct (String.leb_total x y); congruence
                   end);
    try (destruct (in_stock a), (in_stock b); done);
    intros H; first [apply Z.leb_le; apply Z.leb_gt in H; lia
                    | apply Nat.leb_le; apply Nat.leb_gt in H; lia].
Qed.

Lemma book_le_trans s a b c :
  book_le s a b = true → book_le s b c = true → book_le s a c = true.
Proof.
  destruct s as [f []]; destruct f; simpl;
    try (intros; by eapply string_leb_trans);
    try (intros; by eapply double_le_trans);
    try (destruct (in_stock a), (in_stock b), (in_stock c); done);
    intros H1 H2;
    first [apply Z.leb_le; apply Z.leb_le in H1, H2; lia
          | apply Nat.leb_le; apply Nat.leb_le in H1, H2; lia].
Qed.

(** ** Sorted answers

    Two sorted arrangements of the same records agree on everything but
    the order of the records that tie. *)

Lemma sorted_head_le {A} (le : A → A → bool) x l :
  (∀ a b c, le a b = true → le b c = true → le a c = true) →
  sorted le (x :: l) = true → Forall (λ y, le x y = true) l.
Proof.
  intros Htrans. revert x. induction l as [|y l IH]; intros x Hs; [constructor|].
  simpl in Hs. apply andb_prop in Hs as [Hxy Hs].
  constructor; [exact Hxy|].
  eapply Forall_impl; [apply (IH y Hs)|]. intros z Hyz. by eapply Htrans.
Qed.

Lemma filter_stdpp_none {A} (P : A → Prop) `{!∀ x, Decision (P x)} l :
  Forall (λ x, ¬ P x) l → filter P l = [].
Proof. induction 1 as [|x l Hx _ IH]; [done|]. by rewrite filter_cons_False. Qed.

Lemma filter_stdpp_all {A} (P : A → Prop) `{!∀ x, Decision (P x)} l :
  Forall P l → filter P l = l.
Proof. induction 1 as [|x l Hx _ IH]; [done|]. by rewrite filter_cons_True, IH. Qed.

Section SortedAnswers.
Context {A : Type} (le : A → A → bool).
Hypothesis le_total : ∀ a b, le a b = false → le b a = true.
Hypothesis le_trans : ∀ a b c, le a b = true → le b c = true → le a c = true.

Lemma sorted_le_refl a : le a a = true.
Proof. destruct (le a a) eqn:H; [done|]. by rewrite (le_total _ _ H) in H. Qed.

Lemma sorted_app_le l r a b :
  sorted le (l ++ r) = true → a ∈ l → b ∈ r → le a b = true.
Proof.
  induction l as [|x l IH]; intros Hs Ha Hb; [by apply elem_of_nil in Ha|].
  apply elem_of_cons in Ha as [->|Ha].
  - apply (sorted_head_le le _ _ le_trans) in Hs. rewrite Forall_forall in Hs.
    apply Hs, elem_of_app. by right.
  - apply IH; [|done..]. by eapply sorted_cons_inv.
Qed.

(** When no two records of the list tie, the sorted arrangement is unique. *)
Lemma sorted_perm_unique l1 l2 :
  (∀ a b, a ∈ l1 → b ∈ l1 → le a b = true → le b a = true → a = b) →
  l1 ≡ₚ l2 → sorted le l1 = true → sorted le l2 = true → l1 = l2.
Proof.
  revert l2. induction l1 as [|x l1 IH]; intros l2 Hanti Hp Hs1 Hs2.
  { by apply Permutation_nil_l in Hp. }
  destruct l2 as [|y l2]; [by apply Permutation_nil_r in Hp|].
  assert (Hxy : x = y).
  { assert (Hy : y ∈ x :: l1) by (rewrite Hp; apply list_elem_of_here).
    assert (Hx : x ∈ y :: l2) by (rewrite <- Hp; apply list_elem_of_here).
    apply Hanti; [apply list_elem_of_here|done| |].
    - apply elem_of_cons in Hy as [->|Hy]; [apply sorted_le_refl|].
      apply (sorted_head_le le _ _ le_trans) in Hs1.
      rewrite Forall_forall in Hs1. by apply Hs1.
    - apply elem_of_cons in Hx as [->|Hx]; [apply sorted_le_refl|].
      apply (sorted_head_le le _ _ le_trans) in Hs2.
      rewrite Forall_forall in Hs2. by apply Hs2. }
  subst y. f_equal. apply IH.
  - intros a b Ha Hb. apply Hanti; by apply list_elem_of_further.
  - by eapply Permutation_cons_inv.
  - by eapply sorted_cons_inv.
  - by eapply sorted_cons_inv.
Qed.

(** Whatever the order among ties, a record among the first [n] of one
    sorted arrangement is not above a record after the first [n] of
    another. *)
Lemma sorted_perm_take_drop n l1 l2 x y :
  l1 ≡ₚ l2 → sorted le l1 = true → sorted le l2 = true →
  x ∈ take n l1 → y ∈ drop n l2 → le x y = true.
Proof.
  intros Hp Hs1 Hs2 Hx Hy.
  destruct (le x y) eqn:Hxy; [done|]. exfalso.
  set (P := λ z, le x z = false).
  assert (Hlen : length (filter P l1) = length (filter P l2)) by (by rewrite Hp).
  rewrite <- (take_drop n l1) in Hlen, Hs1. rewrite <- (take_drop n l2) in Hlen, Hs2.
  rewrite !filter_app, !length_app in Hlen.
  assert (H1 : filter P (drop n l1) = []).
  { apply filter_stdpp_none, Forall_forall. intros z Hz. unfold P.
    by rewrite (sorted_app_le _ _ x z Hs1 Hx Hz). }
  assert (H2 : length (filter P (take n l1)) < n).
  { pose proof (length_filter_lt P _ x Hx) as Hlt. rewrite length_take in Hlt.
    unfold P in Hlt at 1. rewrite sorted_le_refl in Hlt. specialize (Hlt ltac:(done)). lia. }
  assert (H3 : filter P (take n l2) = take n l2).
  { apply filter_stdpp_all, Forall_forall. intros z Hz. unfold P.
    destruct (le x z) eqn:Hxz; [|done].
    by rewrite (le_trans x z y Hxz (sorted_app_le _ _ z y Hs2 Hz Hy)) in Hxy. }
  assert (H4 : n < length l2).
  { destruct (decide (n < length l2)); [done|].
    rewrite drop_ge in Hy by lia. by apply elem_of_nil in Hy. }
  rewrite H1, H3, length_take in Hlen. simpl in Hlen. lia.
Qed.
End SortedAnswers.

(** The model's read is one of the answers the server may give. *)
Lemma cursor_books_answers c books : answers c books (cursor_books c books).
Proof.
  unfold answers, cursor_books.
  destruct (cur_sort c) as [s|] eqn:Hs.
  - exists (sort_by (book_le s) (List.filter (matches (cur_filter c)) books)).
    split; [apply sort_by_perm|]. split; [|done].
    intros s' [= <-]. apply sort_by_sorted, book_le_total.
  - exists (List.filter (matches (cur_filter c)) books). by repeat split.
Qed.

(** With distinct titles there is one way to sort by title. *)
Lemma title_answers_unique books ordered :
  NoDup (title <$> books) →
  ordered ≡ₚ books → sorted (book_le (FTitle, Asc)) ordered = true →
  ordered = sort_by (book_le (FTitle, Asc)) books.
Proof.
  intros Hnd Hp Hs.
  apply (sorted_perm_unique (book_le (FTitle, Asc)));
    [apply book_le_total|apply book_le_trans| |by rewrite sort_by_perm|done|
     apply sort_by_sorted, book_le_total].
  intros a b Ha Hb Hab Hba. simpl in Hab, Hba.
  pose proof (String.leb_antisym _ _ Hab Hba) as Ht.
  rewrite Hp in Ha, Hb.
  apply list_elem_of_lookup in Ha as [i Hi], Hb as [j Hj].
  assert (i = j) as ->; [|congruence].
  eapply NoDup_lookup; [exact Hnd| |]; rewrite list_lookup_fmap.
  - by rewrite Hi.
  - rewrite Hj. simpl. by rewrite Ht.
Qed.

(** Whatever the order among ties, the titles of a list sorted by title
    come in one order. *)
Lemma title_keys_unique books ordered :
  ordered ≡ₚ books → sorted (book_le (FTitle, Asc)) ordered = true →
  title <$> ordered = title <$> sort_by (book_le (FTitle, Asc)) books.
Proof.
  intros Hp Hs.
  apply (sorted_perm_unique String.leb string_leb_total string_leb_trans).
  - intros a b _ _. apply String.leb_antisym.
  - by rewrite Hp, sort_by_perm.
  - by apply (sorted_fmap (book_le (FTitle, Asc))).
  - apply (sorted_fmap (book_le (FTitle, Asc))); [done|].
    apply sort_by_sorted, book_le_total.
Qed.

Lemma title_read_titles c books ans :
  cur_filter c = [] → cur_sort c = Some (FTitle, Asc) →
  answers c books ans →
  title <$> ans = title <$> cursor_books c books.
Proof.
  intros Hf Hs (ordered & Hp & Hsorted & ->).
  rewrite Hf, filter_all in Hp.
  pose proof (title_keys_unique books ordered Hp (Hsorted _ Hs)) as Hkeys.
  unfold cursor_books. rewrite Hf, Hs, filter_all. cbv zeta.
  destruct (cur_skip c), (cur_limit c);
    by rewrite ?fmap_take, ?fmap_drop, Hkeys.
Qed.

Lemma title_read_answer c books ans :
  cur_filter c = [] → cur_sort c = Some (FTitle, Asc) →
  NoDup (title <$> books) → answers c books ans →
  ans = cursor_books c books.
Proof.
  intros Hf Hs Hnd (ordered & Hp & Hsorted & ->).
  rewrite Hf, filter_all in Hp.
  rewrite (title_answers_unique books ordered Hnd Hp (Hsorted _ Hs)).
  unfold cursor_books. by rewrite Hf, Hs, filter_all.
Qed.

Lemma sorted_titles (l : list book) :
  sorted String.leb (title <$> l) = sorted projected_le (project <$> l).
Proof.
  induction l as [|a [|b l] IH]; [done..|].
  change (String.leb (title a) (title b) && sorted String.leb (title <$> b :: l)
          = projected_le (project a) (project b) && sorted projected_le (project <$> b :: l)).
  by rewrite IH.
Qed.


(** * Running the scripts *)

Lemma bind_log {B} args (k : () → M B) s :
  (console_log args ≫= k) s = k () (emit (ConsoleLog args) s).
Proof. reflexivity. Qed.

Lemma bind_call {A B} faults r o (sem : runtime → A * runtime) (k : A → M B) s :
  (driver_call faults r o sem ≫= k) s =
  match faults (rt_calls s) with
  | Some e => (Throw e, record_call r o s)
  | None => k (sem (record_call r o s)).1 (sem (record_call r o s)).2
  end.
Proof.
  unfold mbind, M_bind, driver_call. destruct (faults (rt_calls s)); [done|].
  by destruct (sem _).
Qed.

Lemma emit_all_nil s : emit_all [] s = s.
Proof. destruct s. unfold emit_all. simpl. by rewrite app_nil_r. Qed.

Lemma emit_all_cons ev evs s : emit_all (ev :: evs) s = emit_all evs (emit ev s).
Proof. unfold emit_all, emit. simpl. by rewrite <- app_assoc. Qed.

Lemma forEach_log {A} (l : list A) (g : A → list jsval) s :
  forEach l (λ x, console_log (g x)) s
  = (Ret (), emit_all ((λ x, ConsoleLog (g x)) <$> l) s).
Proof.
  revert s. induction l as [|x l IH]; intros s.
  - by rewrite emit_all_nil.
  - rewrite fmap_cons, emit_all_cons. simpl. rewrite bind_log. apply IH.
Qed.

Lemma bind_forEach_log {A B} (l : list A) (g : A → list jsval) (k : () → M B) s :
  (forEach l (λ x, console_log (g x)) ≫= k) s
  = k () (emit_all ((λ x, ConsoleLog (g x)) <$> l) s).
Proof. unfold mbind, M_bind. by rewrite forEach_log. Qed.

(** [avg_line] never throws on groups that carry an [avgPrice]. *)
Lemma avg_line_run a s :
  is_Some (avgPrice a) → avg_line a s = (Ret (), emit (avg_event a) s).
Proof. intros [p Hp]. unfold avg_line, avg_event. by rewrite Hp. Qed.

Lemma forEach_avg docs s :
  Forall (λ a, is_Some (avgPrice a)) docs →
  forEach docs avg_line s = (Ret (), emit_all (avg_event <$> docs) s).
Proof.
  intros H. revert s. induction H as [|a docs Ha _ IH]; intros s.
  - by rewrite emit_all_nil.
  - rewrite fmap_cons, emit_all_cons.
    change (forEach (a :: docs) avg_line s)
      with ((avg_line a ≫= λ _, forEach docs avg_line) s).
    unfold mbind, M_bind. rewrite avg_line_run by done. apply IH.
Qed.

Lemma bind_forEach_avg {B} docs (k : () → M B) s :
  Forall (λ a, is_Some (avgPrice a)) docs →
  (forEach docs avg_line ≫= k) s = k () (emit_all (avg_event <$> docs) s).
Proof. intros H. unfold mbind, M_bind. by rewrite forEach_avg. Qed.

(** The guard of lines 84-89 keeps [arr[0]] defined where it is read:
    the block prints one line and never throws. *)
Lemma report_top_author_run docs s :
  report_top_author docs s = (Ret (), emit (ConsoleLog (top_author_report docs)) s).
Proof. by destruct docs. Qed.

Lemma bind_report {B} docs (k : () → M B) s :
  (report_top_author docs ≫= k) s = k () (emit (ConsoleLog (top_author_report docs)) s).
Proof. unfold mbind, M_bind. by rewrite report_top_author_run. Qed.

Lemma finally_unopened faults s :
  client ∉ rt_open s →
  finally_block faults s
  = (Ret (), emit (ConsoleLog closed_line) (record_call (OnClient client) Close s)).
Proof.
  intros H. unfold finally_block, mbind, M_bind, close.
  by rewrite bool_decide_false.
Qed.

Lemma finally_open faults s :
  client ∈ rt_open s →
  finally_block faults s
  = match faults (rt_calls s) with
    | Some e => (Throw e, record_call (OnClient client) Close s)
    | None =>
        (Ret (),
         emit (ConsoleLog closed_line)
           (set_open (List.filter (λ h, negb (bool_decide (h = client))) (rt_open s))
              (record_call (OnClient client) Close s)))
    end.
Proof.
  intros H. unfold finally_block, mbind, M_bind, close.
  rewrite bool_decide_true by done. unfold driver_call.
  by destruct (faults (rt_calls s)).
Qed.

(** ** Reading a trace *)

Lemma calls_of_app tr tr' : calls_of (tr ++ tr') = calls_of tr ++ calls_of tr'.
Proof. apply omap_app. Qed.

Lemma errors_of_app tr tr' : errors_of (tr ++ tr') = errors_of tr ++ errors_of tr'.
Proof. apply omap_app. Qed.

Lemma calls_of_logs {A} (g : A → list jsval) l :
  calls_of ((λ x, ConsoleLog (g x)) <$> l) = [].
Proof. induction l; [done|]. simpl. exact IHl. Qed.

Lemma errors_of_logs {A} (g : A → list jsval) l :
  errors_of ((λ x, ConsoleLog (g x)) <$> l) = [].
Proof. induction l; [done|]. simpl. exact IHl. Qed.

Lemma calls_of_avg docs : calls_of (avg_event <$> docs) = [].
Proof. induction docs; [done|]. simpl. exact IHdocs. Qed.

Lemma errors_of_avg docs : errors_of (avg_event <$> docs) = [].
Proof. induction docs; [done|]. simpl. exact IHdocs. Qed.


Lemma trace_inv_nil : trace_inv [] [] [].
Proof. by repeat split. Qed.

Lemma trace_inv_snoc calls lines tr ev :
  error_of ev = None →
  trace_inv calls lines tr →
  trace_inv (calls ++ calls_of [ev]) (ev :: lines) (tr ++ [ev]).
Proof.
  intros Hev (Hc & He & Hl). repeat split.
  - by rewrite calls_of_app, Hc.
  - rewrite errors_of_app, He. unfold errors_of. simpl. by rewrite Hev.
  - intros x [->|Hx]%elem_of_cons; apply elem_of_app; [right|left].
    + by apply list_elem_of_singleton.
    + by apply Hl.
Qed.

Lemma trace_inv_app calls lines tr evs :
  calls_of evs = [] → errors_of evs = [] →
  trace_inv calls lines tr → trace_inv calls lines (tr ++ evs).
Proof.
  intros Hc' He' (Hc & He & Hl). repeat split.
  - by rewrite calls_of_app, Hc, Hc', app_nil_r.
  - by rewrite errors_of_app, He, He'.
  - intros x Hx. apply elem_of_app. left. by apply Hl.
Qed.

Ltac norm :=
  unfold emit, emit_all, record_call, set_db, set_open;
  cbn [rt_calls rt_db rt_open rt_trace fst snd reading books indexes].

(** Forget how the trace was built; keep what [trace_inv] says of it. *)
Ltac absorb :=
  lazymatch goal with
  | H : trace_inv _ _ ?tr |- context [?tr ++ [?ev]] =>
      apply (trace_inv_snoc _ _ _ ev eq_refl) in H;
      cbn [calls_of omap list_omap call_of app] in H;
      revert H; generalize (tr ++ [ev]); clear tr; intros tr H
  | H : trace_inv _ _ ?tr |- context [?tr ++ ?evs] =>
      apply (trace_inv_app _ _ _ evs) in H;
      [ revert H; generalize (tr ++ evs); clear tr; intros tr H
      | first [ apply calls_of_logs | apply calls_of_avg ]
      | first [ apply errors_of_logs | apply errors_of_avg ] ]
  end.

Ltac step :=
  first
    [ rewrite bind_log
    | rewrite bind_forEach_log
    | rewrite bind_forEach_avg by (by apply aggregate_avg_Some)
    | rewrite bind_report
    | rewrite bind_call ];
  norm; absorb.

Ltac in_lines :=
  repeat first [ apply list_elem_of_here | apply list_elem_of_further ].

Ltac try_facts_done :=
  norm; try absorb;
  lazymatch goal with
  | H : trace_inv _ _ _ |- _ =>
      destruct H as (Hcalls & Herrors & Hlines);
      unfold try_post, try_facts; norm;
      repeat split;
      first [ exact Hcalls | exact Herrors | intros; lia
            | intros _; apply Hlines; in_lines ]
  end.

Lemma try_block_from faults d tr :
  trace_inv [] [] tr →
  try_post (first_fault faults 0 (length script_calls)) d
    (try_block faults {| rt_db := d; rt_open := []; rt_calls := 0; rt_trace := tr |}).
Proof.
  intros H. unfold try_block.
  unfold connect, toArray, updateMany, deleteMany, aggregate, createIndex, list_indexes, explain.
  cbn [first_fault length script_calls].
  repeat (step;
          try match goal with
              | |- try_post _ _ (match faults ?n with _ => _ end) =>
                  destruct (faults n) eqn:?; [ solve [try_facts_done] | ]
              end).
  unfold console_log at 1. try_facts_done.
Qed.

Lemma try_block_post faults d :
  try_post (first_fault faults 0 (length script_calls)) d (try_block faults (boot d)).
Proof. apply try_block_from, trace_inv_nil. Qed.

(** ** The first rejected call *)

Lemma first_fault_Some faults from n k e :
  first_fault faults from n = Some (k, e) →
  from ≤ k < from + n ∧ faults k = Some e ∧ ∀ i, from ≤ i < k → faults i = None.
Proof.
  revert from. induction n as [|n IH]; intros from; simpl; [done|].
  destruct (faults from) as [e'|] eqn:Hf.
  - intros [= <- <-]. repeat split; [lia..|done|]. intros i ?. lia.
  - intros (? & ? & Hi)%IH. repeat split; [lia..|done|].
    intros i ?. destruct (decide (i = from)) as [->|]; [done|]. apply Hi. lia.
Qed.

Lemma first_fault_None faults from n :
  first_fault faults from n = None → ∀ i, from ≤ i < from + n → faults i = None.
Proof.
  revert from. induction n as [|n IH]; intros from; simpl; [intros _ i ?; lia|].
  destruct (faults from) as [e'|] eqn:Hf; [done|].
  intros H i ?. destruct (decide (i = from)) as [->|]; [done|]. apply (IH _ H). lia.
Qed.

(** The calls before [n] all succeeded: the first rejected one, if any, is
    at [n] or later. *)
Lemma ok_of_ge faults n :
  n ≤ length script_calls →
  (∀ i, i < n → faults i = None) →
  n ≤ ok_of (first_fault faults 0 (length script_calls)).
Proof.
  intros Hn H. destruct (first_fault _ _ _) as [[k e]|] eqn:Hff; simpl; [|done].
  apply first_fault_Some in Hff as (_ & Hk & _).
  destruct (decide (k < n)) as [Hlt|]; [|lia].
  rewrite H in Hk by done. done.
Qed.

(** ** The whole run *)

Lemma executeQueries_run faults s :
  executeQueries faults s =
  match try_block faults s with
  | (Ret _, s1) => finally_block faults s1
  | (Throw e, s1) => finally_block faults (emit (ConsoleError (error_line e)) s1)
  end.
Proof.
  unfold executeQueries, try_catch_finally. fold (finally_block faults).
  by destruct (try_block faults s) as [[[]|e] s1].
Qed.

Ltac run_facts_done :=
  cbn [calls_of errors_of omap list_omap call_of error_of app];
  rewrite ?app_nil_r;
  repeat split;
  first [ done
        | intros; lia
        | intros ?; rewrite ?elem_of_app; auto
        | eexists; reflexivity
        | rewrite <- (app_assoc _ [_] [_]); eexists; reflexivity ].

Lemma executeQueries_post faults d : run_post faults d (executeQueries faults (boot d)).
Proof.
  pose proof (try_block_post faults d) as Htry.
  unfold run_post. cbv zeta. rewrite executeQueries_run.
  destruct (try_block faults (boot d)) as [o s1].
  destruct (first_fault faults 0 (length script_calls)) as [[k e]|];
    destruct Htry as (Ho & Hmade & Hcalls & Herrs & Hopen & Hbooks & Hup & Hdel & Htop);
    cbn [fst snd] in *; subst o; cbn [ok_of made_of].
  - destruct k as [|k].
    + rewrite finally_unopened by (simpl; rewrite Hopen; apply not_elem_of_nil).
      norm. rewrite !calls_of_app, !errors_of_app, Hcalls, Herrs.
      run_facts_done.
    + rewrite finally_open by (simpl; rewrite Hopen; apply list_elem_of_here).
      norm. rewrite Hmade. cbn [Nat.eqb].
      destruct (faults (S (S k))); norm;
        rewrite !calls_of_app, !errors_of_app, Hcalls, Herrs, ?Hopen;
        run_facts_done.
  - rewrite finally_open by (rewrite Hopen; apply list_elem_of_here).
    rewrite Hmade. cbn [length script_calls Nat.eqb Nat.leb] in *.
    destruct (faults 19); norm;
      rewrite !calls_of_app, Hcalls, ?errors_of_app, ?Herrs, ?Hopen;
      run_facts_done.
Qed.


(** * The claims *)

Lemma matches_genre g b : matches [GenreEq g] b = String.eqb (genre b) g.
Proof. unfold matches. simpl. apply andb_true_r. Qed.

(** C1. The price-multiply step, [updateMany({ genre: "Fantasy" },
    { $mul: { price: 1.1 } })], gives every record whose genre is "Fantasy"
    its old price times 1.1 in binary64 and leaves its other fields and all
    other records as they were; the [modifiedCount] it reports, and the
    script prints, is the number of records that changed.  Three Fantasy
    records priced 10, 20, 30 end up priced 11, 22, 33, with a reported
    count of 3. *)
Theorem price_multiply_step (faults : nat → option error) (d : database) :
  faults 0 = None → faults 1 = None → faults 2 = None →
  let r := executeQueries faults (boot d) in
  (∀ i b, books d !! i = Some b → genre b = "Fantasy" →
     ∃ b', books_updated d !! i = Some b' ∧
           price b' = double_mul (price b) lit_1_1 ∧
           (_id b', title b', author b', genre b', published_year b', in_stock b')
           = (_id b, title b, author b, genre b, published_year b, in_stock b)) ∧
  (∀ i b, books d !! i = Some b → genre b ≠ "Fantasy" → books_updated d !! i = Some b) ∧
  modifiedCount (updateMany_result [GenreEq "Fantasy"] (MulPrice lit_1_1) (books d))
  = changed_count (books d) (books_updated d) ∧
  ConsoleLog [Str "✏️ Updated "; Num (changed_count (books d) (books_updated d));
              Str " Fantasy book prices by 10%."] ∈ rt_trace r.2 ∧
  books (rt_db r.2)
  = match faults 3 with Some _ => books_updated d | None => books_deleted d end ∧
  price <$> books_updated seeded_db = double_of_Z <$> [11; 22; 33]%Z ∧
  modifiedCount (updateMany_result [GenreEq "Fantasy"] (MulPrice lit_1_1) (books seeded_db)) = 3.
Proof.
  intros H0 H1 H2 r.
  assert (Hok : 3 ≤ ok_of (first_fault faults 0 (length script_calls))).
  { apply ok_of_ge; [simpl; lia|]. intros [|[|[|i]]] ?; (done || lia). }
  destruct (executeQueries_post faults d) as (_ & _ & Hbooks & Hup & _).
  fold r in Hbooks, Hup.
  split; [|split; [|split; [|split; [|split; [|split]]]]].
  - intros i b Hb Hg. unfold books_updated. rewrite updateMany_books_lookup, Hb. simpl.
    unfold update_one. rewrite matches_genre.
    destruct (String.eqb_spec (genre b) "Fantasy"); [|done].
    eexists. split; [reflexivity|]. by split.
  - intros i b Hb Hg. unfold books_updated. rewrite updateMany_books_lookup, Hb. simpl.
    unfold update_one. rewrite matches_genre.
    by destruct (String.eqb_spec (genre b) "Fantasy").
  - apply modifiedCount_changed.
  - unfold books_updated. rewrite <- modifiedCount_changed. apply Hup. lia.
  - rewrite Hbooks.
    destruct (first_fault faults 0 (length script_calls)) as [[k e]|] eqn:Hff;
      cbn [ok_of] in *.
    + apply first_fault_Some in Hff as (_ & Hk & Hbefore).
      destruct k as [|[|[|[|k]]]]; try lia.
      * by rewrite Hk.
      * by rewrite (Hbefore 3) by lia.
    + by rewrite (first_fault_None _ _ _ Hff 3) by (simpl; lia).
  - by vm_compute.
  - by vm_compute.
Qed.

(** The seeded scenario of C1, run: no call is rejected, and the script
    prints a modified count of 3. *)
Lemma price_multiply_step_witness :
  no_faults 0 = None ∧ no_faults 1 = None ∧ no_faults 2 = None ∧
  ConsoleLog [Str "✏️ Updated "; Num 3; Str " Fantasy book prices by 10%."]
    ∈ rt_trace (executeQueries no_faults (boot seeded_db)).2.
Proof.
  repeat split.
  exact (proj1 (proj2 (proj2 (proj2
    (price_multiply_step no_faults seeded_db eq_refl eq_refl eq_refl))))).
Defined.

(** C3. After the delete step, [deleteMany({ published_year: { $lt: 1950 } })],
    no record left in the collection has a [published_year] below 1950:
    the records that remain are exactly those of the updated collection
    published in 1950 or later, and the script prints the number of records
    deleted. *)
Theorem year_threshold_delete (faults : nat → option error) (d : database) :
  (∀ i, i < 4 → faults i = None) →
  let r := executeQueries faults (boot d) in
  Forall (λ b, (1950 ≤ published_year b)%Z) (books (rt_db r.2)) ∧
  (∀ b, b ∈ books (rt_db r.2) ↔ b ∈ books_updated d ∧ (1950 ≤ published_year b)%Z) ∧
  ConsoleLog [Str "🗑️ Deleted "; Num (length (books d) - length (books (rt_db r.2)));
              Str " books published before 1950."] ∈ rt_trace r.2.
Proof.
  intros Hfaults r.
  assert (Hok : 4 ≤ ok_of (first_fault faults 0 (length script_calls))).
  { apply ok_of_ge; [simpl; lia|done]. }
  destruct (executeQueries_post faults d) as (_ & _ & Hbooks & _ & Hdel & _).
  fold r in Hbooks, Hdel.
  assert (Hfinal : books (rt_db r.2) = books_deleted d).
  { rewrite Hbooks.
    destruct (ok_of _) as [|[|[|[|k]]]]; try lia. reflexivity. }
  rewrite Hfinal. split; [|split].
  - apply deleteMany_books_year.
  - intros b. unfold books_deleted, deleteMany_books.
    rewrite list_elem_of_In, filter_In, <- list_elem_of_In.
    unfold matches. simpl. rewrite andb_true_r, negb_true_iff, Z.ltb_ge. done.
  - specialize (Hdel ltac:(lia)). unfold deleted_line in Hdel.
    pose proof (deleteMany_count [YearLt 1950%Z] (books_updated d)) as Hcount.
    fold (books_deleted d) in Hcount.
    pose proof (updateMany_books_length [GenreEq "Fantasy"] (MulPrice lit_1_1) (books d))
      as Hlen.
    fold (books_updated d) in Hlen.
    replace (length (books d) - length (books_deleted d))
      with (deletedCount (deleteMany_result [YearLt 1950%Z] (books_updated d))) by lia.
    exact Hdel.
Qed.

(** A run of C3 on a collection whose only record is from 1922: nothing
    is left, and the script prints a deleted count of 1. *)
Lemma year_threshold_delete_witness :
  (∀ i, i < 4 → no_faults i = None) ∧
  books (rt_db (executeQueries no_faults (boot old_db)).2) = [] ∧
  ConsoleLog [Str "🗑️ Deleted "; Num 1; Str " books published before 1950."]
    ∈ rt_trace (executeQueries no_faults (boot old_db)).2.
Proof.
  split; [done|].
  pose proof (year_threshold_delete no_faults old_db (λ _ _, eq_refl)) as (_ & _ & H).
  split; [by vm_compute|]. exact H.
Defined.



Lemma script_calls_client n : Forall (λ c, handle_of c.1 = client) (take n script_calls).
Proof. apply Forall_take. by repeat constructor. Qed.



(** C10. [connect] is awaited inside the [try] block.  When it is
    rejected, no query runs; the error is printed, and the [finally] block
    still calls [close], on a client that never connected, and prints that
    the connection is closed.  That is the whole run. *)
Theorem connect_failure_still_closes (faults : nat → option error) (d : database)
    (e : error) :
  faults 0 = Some e →
  executeQueries faults (boot d)
  = (Ret (),
     {| rt_db := d; rt_open := []; rt_calls := 2;
        rt_trace := [ ConsoleLog [Str "Attempting to connect to MongoDB Atlas..."];
                      Call (OnClient client) Connect;
                      ConsoleError (error_line e);
                      Call (OnClient client) Close;
                      ConsoleLog closed_line ] |}).
Proof.
  intros H0. rewrite executeQueries_run. unfold try_block, connect, boot.
  rewrite bind_log, bind_call. norm. rewrite H0. norm.
  rewrite finally_unopened by apply not_elem_of_nil. reflexivity.
Qed.

(** The run of C10 against a server that refuses the connection. *)
Lemma connect_failure_still_closes_witness :
  refused 0 = Some (MongoError "connect ECONNREFUSED 127.0.0.1:27017") ∧
  calls_of (rt_trace (executeQueries refused (boot seeded_db)).2)
  = [(OnClient client, Connect); (OnClient client, Close)] ∧
  last (rt_trace (executeQueries refused (boot seeded_db)).2) = Some (ConsoleLog closed_line).
Proof.
  split; [reflexivity|].
  rewrite (connect_failure_still_closes refused seeded_db _ eq_refl).
  split; reflexivity.
Defined.

(** C9. When the author-with-most-books aggregation returns no group, the
    guard [topAuthorByBooks.length > 0] sends the script to the fallback
    line; element 0 is read in the other branch only, so the block never
    throws, whatever the array.  The sequence goes on: the next driver call,
    the aggregation by decade, is made, and an error is printed only if a
    later driver call is rejected. *)
Theorem empty_top_author_fallback (faults : nat → option error) (d : database) :
  (∀ i, i < 11 → faults i = None) →
  aggregate_result topAuthorByBooks_pipeline (books_deleted d) = [] →
  let tr := rt_trace (executeQueries faults (boot d)).2 in
  ConsoleLog no_authors ∈ tr ∧
  (∀ docs s, (report_top_author docs s).1 = Ret ()) ∧
  (∀ s, report_top_author [] s = (Ret (), emit (ConsoleLog no_authors) s)) ∧
  calls_of tr !! 11 = Some (OnCollection booksCollection, Aggregate booksByDecade_pipeline) ∧
  match first_fault faults 0 (length script_calls) with
  | Some (k, e) => 11 ≤ k ∧ errors_of tr = [error_line e]
  | None => errors_of tr = []
  end.
Proof.
  intros Hfaults Hempty tr.
  assert (Hok : 11 ≤ ok_of (first_fault faults 0 (length script_calls))).
  { apply ok_of_ge; [simpl; lia|done]. }
  destruct (executeQueries_post faults d) as (Hcalls & Herrs & _ & _ & _ & Htop & _).
  fold tr in Hcalls, Herrs, Htop.
  split; [|split; [|split; [|split]]].
  - specialize (Htop ltac:(lia)). unfold top_author_line in Htop.
    by rewrite Hempty in Htop.
  - intros docs s. by rewrite report_top_author_run.
  - intros s. apply report_top_author_run.
  - rewrite Hcalls, lookup_app_l.
    + rewrite lookup_take_lt; [reflexivity|].
      destruct (first_fault _ _ _) as [[k e]|]; simpl in *; lia.
    + rewrite length_take. destruct (first_fault _ _ _) as [[k e]|]; simpl in *; lia.
  - destruct (first_fault _ _ _) as [[k e]|]; simpl in *; [by split|done].
Qed.

(** A run of C9 on a collection that the delete step empties. *)
Lemma empty_top_author_fallback_witness :
  (∀ i, i < 11 → no_faults i = None) ∧
  aggregate_result topAuthorByBooks_pipeline (books_deleted old_db) = [] ∧
  ConsoleLog no_authors ∈ rt_trace (executeQueries no_faults (boot old_db)).2.
Proof.
  split; [done|]. split; [reflexivity|].
  exact (proj1 (empty_top_author_fallback no_faults old_db (λ _ _, eq_refl) eq_refl)).
Defined.


Lemma connectDB_calls faults env d :
  calls_of (rt_trace (connectDB faults env (boot d)).2)
  = [(OnClient Mongoose, ConnectTo (env !! "MONGODB_URI"))].
Proof.
  unfold connectDB, mongoose_connect.
  destruct (env !! "MONGODB_URI") as [u|]; [|reflexivity].
  unfold mbind, M_bind, driver_call, boot. simpl.
  by destruct (faults 0).
Qed.

Lemma connectDB_open faults env d :
  rt_open (connectDB faults env (boot d)).2 ⊆ [Mongoose].
Proof.
  unfold connectDB, mongoose_connect.
  destruct (env !! "MONGODB_URI") as [u|]; [|by apply list_subseteq_nil].
  unfold mbind, M_bind, driver_call, boot. simpl.
  destruct (faults 0); simpl; [by apply list_subseteq_nil|done].
Qed.

Lemma executeQueries_calls faults d :
  calls_of (rt_trace (executeQueries faults (boot d)).2)
  = take (made_of (first_fault faults 0 (length script_calls))) script_calls ++ [close_call].
Proof. by destruct (executeQueries_post faults d) as (Hcalls & _). Qed.

Lemma reads_of_calls tr :
  reads_of tr
  = omap (λ c : receiver * op, match c.2 with ToArray q => Some q | _ => None end)
         (calls_of tr).
Proof.
  unfold reads_of, calls_of.
  induction tr as [|ev tr IH]; [done|].
  destruct ev as [r o|args|args]; simpl; try exact IH.
  destruct o; simpl; first [exact IH | f_equal; exact IH].
Qed.

(** C4, as stated: every driver call of the Query Runner goes through a
    handle the Connector opened.  It fails: the Query Runner's calls go
    through its own [MongoClient], which [connectDB] never opens, even
    when the environment names the very same server. *)
Lemma query_runner_ignores_connector :
  ¬ (∀ c, c ∈ calls_of (rt_trace (executeQueries no_faults (boot empty_db)).2) →
          handle_of c.1 ∈ rt_open (connectDB no_faults sample_env (boot empty_db)).2).
Proof.
  intros H. specialize (H (OnClient client, Connect)).
  rewrite executeQueries_calls in H.
  apply (connectDB_open no_faults sample_env empty_db) in H; [|apply list_elem_of_here].
  apply list_elem_of_singleton in H. discriminate H.
Qed.

(** C4, amended.  The Query Runner does not use the Connector: it builds
    its own [MongoClient] for [mongodb://localhost:27017], connects it
    itself as its first driver call, and makes every driver call through
    that client.  The Connector opens the [mongoose] connection only, a
    handle the Query Runner never uses. *)
Theorem query_runner_own_client (faults : nat → option error) (d : database) :
  let tr := rt_trace (executeQueries faults (boot d)).2 in
  Forall (λ c, handle_of c.1 = client) (calls_of tr) ∧
  head (calls_of tr) = Some (OnClient client, Connect) ∧
  client = MongoClient "mongodb://localhost:27017" 30000 ∧
  (∀ faults' env d',
     (client ∉ rt_open (connectDB faults' env (boot d')).2) ∧
     Forall (λ c, handle_of c.1 = Mongoose)
            (calls_of (rt_trace (connectDB faults' env (boot d')).2))).
Proof.
  intros tr. unfold tr. rewrite executeQueries_calls.
  split; [|split; [|split]].
  - apply Forall_app. split; [apply script_calls_client|by repeat constructor].
  - by destruct (first_fault _ _ _) as [[k e]|].
  - reflexivity.
  - intros faults' env d'. split.
    + intros Hin%(connectDB_open faults' env d')%list_elem_of_singleton. discriminate Hin.
    + rewrite connectDB_calls. by repeat constructor.
Qed.

(** C5. The production-facing script is [connection.js]: the address it
    connects to is the value of [MONGODB_URI] in [process.env], which holds
    the environment's value or else the one of the [.env] file; whatever
    URI is put there is the one [connectDB] connects to, and with none
    there nothing is connected.  No address is written in that script: the
    one script with an address in it is the query script, whose client is
    built for [mongodb://localhost:27017]. *)
Theorem connection_target_from_environment (faults : nat → option error)
    (env : gmap string string) (d : database) :
  calls_of (rt_trace (connectDB faults env (boot d)).2)
  = [(OnClient Mongoose, ConnectTo (env !! "MONGODB_URI"))] ∧
  (∀ u, calls_of (rt_trace (connectDB faults (<["MONGODB_URI" := u]> env) (boot d)).2)
        = [(OnClient Mongoose, ConnectTo (Some u))]) ∧
  (∀ dotenv_file,
     dotenv_config dotenv_file env !! "MONGODB_URI"
     = match env !! "MONGODB_URI" with
       | Some u => Some u
       | None => dotenv_file !! "MONGODB_URI"
       end) ∧
  (env !! "MONGODB_URI" = None →
   ∃ msg s, connectDB faults env (boot d) = (Throw (MongooseError msg), s) ∧ rt_open s = []) ∧
  client = MongoClient "mongodb://localhost:27017" 30000.
Proof.
  split; [|split; [|split; [|split]]].
  - apply connectDB_calls.
  - intros u. by rewrite connectDB_calls, lookup_insert_eq.
  - intros f. unfold dotenv_config. rewrite lookup_union.
    by destruct (env !! "MONGODB_URI"), (f !! "MONGODB_URI").
  - intros Henv. unfold connectDB, mongoose_connect. rewrite Henv.
    eexists _, _. split; reflexivity.
  - reflexivity.
Qed.

(** The environment of C5 with no [MONGODB_URI]: nothing is connected. *)
Lemma connection_target_from_environment_witness :
  (∅ : gmap string string) !! "MONGODB_URI" = None ∧
  ∃ msg s, connectDB no_faults ∅ (boot empty_db) = (Throw (MongooseError msg), s) ∧
           rt_open s = [].
Proof.
  split; [reflexivity|].
  exact (proj1 (proj2 (proj2 (proj2
    (connection_target_from_environment no_faults ∅ empty_db)))) eq_refl).
Defined.

(** C6, as stated: the script makes two reads with an offset and a limit,
    with different filters and different sort orders.  It fails: the two
    reads that have an offset and a limit have the same filter and the
    same sort order. *)
Lemma paginated_reads_share_filter_and_sort :
  ¬ (∃ q1 q2,
       List.filter paginated (reads_of (rt_trace (executeQueries no_faults (boot empty_db)).2))
       = [q1; q2] ∧
       cur_filter q1 ≠ cur_filter q2 ∧ cur_sort q1 ≠ cur_sort q2).
Proof.
  intros (q1 & q2 & H & Hfilter & _).
  rewrite reads_of_calls, executeQueries_calls in H.
  vm_compute in H. injection H as <- <-. by apply Hfilter.
Qed.

(** C6, amended.  A run in which no call is rejected makes seven reads.
    Two of them have an offset and a limit: the two pages, which share the
    empty filter and the sort by title ascending and differ in their
    offset only (0 and 5, with limit 5).  The two reads that do differ in
    filter and in sort order, the in-stock read and the three most
    expensive books, have no offset. *)
Theorem paginated_reads (faults : nat → option error) (d : database) :
  first_fault faults 0 (length script_calls) = None →
  let reads := reads_of (rt_trace (executeQueries faults (boot d)).2) in
  reads = [ find [GenreEq "Fantasy"] projection;
            inStockAfter1950_cursor; top3Books_cursor;
            page1_cursor; page2_cursor;
            sort (FPrice, Asc) (find [] projection);
            sort (FPrice, Desc) (find [] projection) ] ∧
  List.filter paginated reads = [page1_cursor; page2_cursor] ∧
  cur_filter page1_cursor = [] ∧ cur_filter page2_cursor = [] ∧
  cur_sort page1_cursor = Some (FTitle, Asc) ∧ cur_sort page2_cursor = Some (FTitle, Asc) ∧
  (cur_skip page1_cursor, cur_limit page1_cursor) = (Some 0, Some 5) ∧
  (cur_skip page2_cursor, cur_limit page2_cursor) = (Some 5, Some 5) ∧
  cur_filter inStockAfter1950_cursor ≠ cur_filter top3Books_cursor ∧
  cur_sort inStockAfter1950_cursor ≠ cur_sort top3Books_cursor ∧
  cur_skip inStockAfter1950_cursor = None ∧ cur_skip top3Books_cursor = None.
Proof.
  intros Hff reads. unfold reads.
  rewrite reads_of_calls, executeQueries_calls, Hff.
  by repeat split.
Qed.

(** A run of C6 in which no call is rejected. *)
Lemma paginated_reads_witness :
  first_fault no_faults 0 (length script_calls) = None ∧
  List.filter paginated (reads_of (rt_trace (executeQueries no_faults (boot seeded_db)).2))
  = [page1_cursor; page2_cursor].
Proof.
  split; [reflexivity|].
  exact (proj1 (proj2 (paginated_reads no_faults seeded_db eq_refl))).
Defined.


Lemma by_title_result books :
  cursor_result by_title_cursor books
  = project <$> sort_by (book_le (FTitle, Asc)) books.
Proof. unfold cursor_result. by rewrite by_title_books. Qed.

Lemma pages_result books :
  cursor_result page1_cursor books ++ cursor_result page2_cursor books
  = take 10 (cursor_result by_title_cursor books).
Proof.
  unfold cursor_result. by rewrite <- fmap_app, pages_books, fmap_take.
Qed.

Lemma by_title_result_sorted books :
  sorted projected_le (cursor_result by_title_cursor books) = true.
Proof.
  rewrite by_title_result.
  apply (sorted_fmap (book_le (FTitle, Asc))); [apply projected_le_project|].
  apply sort_by_sorted, title_le_total.
Qed.

(** C7, as stated: for every collection, the two pages are disjoint and
    their concatenation, sorted again, is the whole collection sorted by
    title.  It fails on a collection of more than ten records: the two
    pages hold ten of them. *)
Lemma two_pages_miss_the_eleventh_record :
  ¬ (∀ books,
       (∀ x, x ∈ cursor_result page1_cursor books → x ∉ cursor_result page2_cursor books) ∧
       sort_by projected_le
         (cursor_result page1_cursor books ++ cursor_result page2_cursor books)
       = cursor_result by_title_cursor books).
Proof.
  intros H. destruct (H eleven_books) as [_ Heq].
  apply (f_equal length) in Heq. vm_compute in Heq. discriminate Heq.
Qed.

(** C7, amended.  The server sorts each page read on its own and promises
    no order among records with the same title, so the pages are taken as
    any two answers it may give.  For every collection the titles on page 1
    and then page 2 are the first ten titles of the collection sorted by
    title, five and five, in order, so that sorting the pages again changes
    nothing; they are all the titles exactly when the collection has at
    most ten records.  When the titles are pairwise distinct there is one
    sorted collection, the pages are its first five and next five records,
    and no record is on both pages, nor is any printed entry. *)
Theorem pages_are_the_first_ten (books page1 page2 : list book) :
  answers page1_cursor books page1 →
  answers page2_cursor books page2 →
  let all := cursor_books by_title_cursor books in
  title <$> page1 = take 5 (title <$> all) ∧
  title <$> page2 = take 5 (drop 5 (title <$> all)) ∧
  title <$> (page1 ++ page2) = take 10 (title <$> all) ∧
  sort_by projected_le (project <$> (page1 ++ page2)) = project <$> (page1 ++ page2) ∧
  (title <$> (page1 ++ page2) = title <$> all ↔ length books ≤ 10) ∧
  (NoDup (title <$> books) →
   (∀ ans, answers by_title_cursor books ans → ans = all) ∧
   page1 = take 5 all ∧
   page2 = take 5 (drop 5 all) ∧
   (∀ b, b ∈ page1 → b ∉ page2) ∧
   (∀ x, x ∈ project <$> page1 → x ∉ project <$> page2) ∧
   project <$> (page1 ++ page2) = take 10 (cursor_result by_title_cursor books)).
Proof.
  intros H1 H2 all.
  assert (Hlen : length all = length books).
  { unfold all. by rewrite by_title_books, sort_by_length. }
  assert (Ht1 : title <$> page1 = take 5 (title <$> all)).
  { rewrite (title_read_titles page1_cursor books page1) by done.
    by rewrite page1_books, fmap_take. }
  assert (Ht2 : title <$> page2 = take 5 (drop 5 (title <$> all))).
  { rewrite (title_read_titles page2_cursor books page2) by done.
    by rewrite page2_books, fmap_take, fmap_drop. }
  assert (Ht : title <$> (page1 ++ page2) = take 10 (title <$> all)).
  { by rewrite fmap_app, Ht1, Ht2, (take_take_drop _ 5 5). }
  split; [done|]. split; [done|]. split; [done|].
  split; [|split].
  - apply sort_by_id. rewrite <- sorted_titles, Ht, <- fmap_take, sorted_titles.
    rewrite fmap_take. apply sorted_take, by_title_result_sorted.
  - rewrite Ht. split.
    + intros Heq. apply (f_equal length) in Heq.
      rewrite length_take, length_fmap in Heq. lia.
    + intros Hle. apply take_ge. rewrite length_fmap. lia.
  - intros Htitles.
    apply (title_read_answer page1_cursor) in H1; [|done..].
    apply (title_read_answer page2_cursor) in H2; [|done..].
    subst page1 page2. rewrite page1_books, page2_books. fold all.
    assert (Hnd : NoDup (title <$> all)).
    { unfold all. by rewrite by_title_books, sort_by_perm. }
    rewrite <- (take_drop 10 all), <- (take_take_drop _ 5 5) in Hnd.
    rewrite !fmap_app in Hnd.
    apply NoDup_app in Hnd as [Hpages _].
    apply NoDup_app in Hpages as (_ & Hdisjoint & _).
    split; [|split; [|split; [|split; [|split]]]]; try done.
    + intros ans Hans. by apply (title_read_answer by_title_cursor).
    + intros b Hb1 Hb2. apply (Hdisjoint (title b)); by apply list_elem_of_fmap_2.
    + intros x (b1 & -> & Hb1)%list_elem_of_fmap (b2 & Hx & Hb2)%list_elem_of_fmap.
      apply (Hdisjoint (title b1)); [by apply list_elem_of_fmap_2|].
      replace (title b1) with (title b2); [by apply list_elem_of_fmap_2|].
      by apply (f_equal proj_title) in Hx.
    + rewrite (take_take_drop all 5 5). unfold cursor_result. by rewrite fmap_take.
Qed.

(** C7 on eleven records with distinct titles, the pages being the
    model's own answers: they hold ten of the records, the record sorted
    last is on neither. *)
Lemma pages_are_the_first_ten_witness :
  answers page1_cursor eleven_books (cursor_books page1_cursor eleven_books) ∧
  answers page2_cursor eleven_books (cursor_books page2_cursor eleven_books) ∧
  NoDup (title <$> eleven_books) ∧
  project <$> (cursor_books page1_cursor eleven_books ++ cursor_books page2_cursor eleven_books)
  = take 10 (cursor_result by_title_cursor eleven_books) ∧
  length (cursor_result by_title_cursor eleven_books) = 11.
Proof.
  assert (Htitles : NoDup (title <$> eleven_books)).
  { apply (bool_decide_unpack _). by vm_compute. }
  pose proof (cursor_books_answers page1_cursor eleven_books) as H1.
  pose proof (cursor_books_answers page2_cursor eleven_books) as H2.
  split; [exact H1|]. split; [exact H2|]. split; [exact Htitles|]. split; [|reflexivity].
  pose proof (pages_are_the_first_ten eleven_books _ _ H1 H2) as (_ & _ & _ & _ & _ & H).
  destruct (H Htitles) as (_ & _ & _ & _ & _ & Hpages). exact Hpages.
Defined.

(** Six records with one title: the server may hand out the tied records
    in any order, and differently to each read, so a record can come back
    on both pages. *)
Example tied_titles_overlap :
  let books := (λ i, fantasy i 10) <$> seq 0 6 in
  NoDup (_id <$> books) ∧
  ∃ page1 page2,
    answers page1_cursor books page1 ∧ answers page2_cursor books page2 ∧
    fantasy 0 10 ∈ page1 ∧ fantasy 0 10 ∈ page2.
Proof.
  intros books. split; [apply (bool_decide_unpack _); by vm_compute|].
  exists (take 5 books), [fantasy 0 10].
  split; [|split; [|split]].
  - exists books. split; [done|]. split; [|reflexivity].
    intros s [= <-]. reflexivity.
  - exists (drop 1 books ++ take 1 books). split; [|split].
    + apply Permutation_sym, (Permutation_cons_append (drop 1 books)).
    + intros s [= <-]. reflexivity.
    + reflexivity.
  - apply list_elem_of_here.
  - apply list_elem_of_here.
Qed.

(** C8, as stated: the group counts of every aggregation pipeline sum to
    the number of records.  It fails for the two pipelines that end in a
    [$limit]: with six authors, the top-five pipeline counts five records
    and the top-one pipeline one. *)
Lemma limited_pipelines_drop_groups :
  ¬ (∀ books,
       total_count (aggregate_result topAuthors_pipeline books) = length books ∧
       total_count (aggregate_result avgPriceByGenre_pipeline books) = length books ∧
       total_count (aggregate_result topAuthorByBooks_pipeline books) = length books ∧
       total_count (aggregate_result booksByDecade_pipeline books) = length books).
Proof.
  intros H. destruct (H six_authors) as [Htop _].
  vm_compute in Htop. discriminate Htop.
Qed.

(** C8, amended.  The group counts of the two pipelines without a
    [$limit] (by genre, by decade) sum to the number of records.  The two
    pipelines that end in a [$limit] (top five authors by average price,
    author with most books) return at most five groups and one group, and
    their counts sum to at most the number of records; they sum to it when
    the collection has no more than five authors, and no more than one. *)
Theorem aggregation_counts (books : list book) :
  total_count (aggregate_result avgPriceByGenre_pipeline books) = length books ∧
  total_count (aggregate_result booksByDecade_pipeline books) = length books ∧
  total_count (aggregate_result topAuthors_pipeline books) ≤ length books ∧
  total_count (aggregate_result topAuthorByBooks_pipeline books) ≤ length books ∧
  length (aggregate_result topAuthors_pipeline books) ≤ 5 ∧
  length (aggregate_result topAuthorByBooks_pipeline books) ≤ 1 ∧
  (length (group_by KeyAuthor books) ≤ 5 →
   total_count (aggregate_result topAuthors_pipeline books) = length books) ∧
  (length (group_by KeyAuthor books) ≤ 1 →
   total_count (aggregate_result topAuthorByBooks_pipeline books) = length books).
Proof.
  assert (Hstages : ∀ p : pipeline,
            Forall (λ st, match st with
                          | StageLimit n => length (group_by (pipe_key p) books) ≤ n
                          | _ => True
                          end) (pipe_post p) →
            total_count (aggregate_result p books) = length books)
    by (intros p; apply aggregate_count_eq).
  repeat split.
  - apply Hstages. simpl. by apply Forall_singleton.
  - apply Hstages. simpl. by apply Forall_singleton.
  - apply aggregate_count_le.
  - apply aggregate_count_le.
  - unfold aggregate_result. simpl. rewrite length_take. lia.
  - unfold aggregate_result. simpl. rewrite length_take. lia.
  - intros H. apply Hstages. simpl.
    apply Forall_cons. split; [done|]. by apply Forall_singleton.
  - intros H. apply Hstages. simpl.
    apply Forall_cons. split; [done|]. by apply Forall_singleton.
Qed.

(** C8 on the seeded collection, which has one author: every pipeline
    counts its three records. *)
Lemma aggregation_counts_witness :
  length (group_by KeyAuthor (books seeded_db)) ≤ 1 ∧
  total_count (aggregate_result topAuthors_pipeline (books seeded_db)) = 3 ∧
  total_count (aggregate_result topAuthorByBooks_pipeline (books seeded_db)) = 3.
Proof.
  assert (H1 : length (group_by KeyAuthor (books seeded_db)) ≤ 1) by (vm_compute; lia).
  assert (H5 : length (group_by KeyAuthor (books seeded_db)) ≤ 5) by (vm_compute; lia).
  destruct (aggregation_counts (books seeded_db)) as (_ & _ & _ & _ & _ & _ & Hfive & Hone).
  split; [exact H1|]. split; [exact (Hfive H5)|exact (Hone H1)].
Defined.

(** * The transcript of a run *)

Lemma blocks_inv_nil : blocks_inv [] [].
Proof. constructor. Qed.

Lemma blocks_inv_app blocks tr evs :
  blocks_inv blocks tr → blocks_inv (evs :: blocks) (tr ++ evs).
Proof.
  intros H. constructor.
  - by apply sublist_inserts_l.
  - eapply Forall_impl; [exact H|]. intros b Hb. by apply sublist_inserts_r.
Qed.

Lemma blocks_inv_block blocks tr b : blocks_inv blocks tr → b ∈ blocks → b `sublist_of` tr.
Proof. intros H Hb. by apply (proj1 (Forall_forall _ _) H). Qed.

Lemma blocks_inv_line blocks tr ev : blocks_inv blocks tr → [ev] ∈ blocks → ev ∈ tr.
Proof. intros H Hb. by apply singleton_sublist_l, (blocks_inv_block blocks). Qed.

Ltac absorb_block :=
  lazymatch goal with
  | H : blocks_inv _ ?tr |- context [?tr ++ ?evs] =>
      apply (blocks_inv_app _ _ evs) in H;
      revert H; generalize (tr ++ evs); clear tr; intros tr H
  end.

Ltac step_block :=
  first
    [ rewrite bind_log
    | rewrite bind_forEach_log
    | rewrite bind_forEach_avg by (by apply aggregate_avg_Some)
    | rewrite bind_report
    | rewrite bind_call ];
  norm; absorb_block.

Ltac transcript_done :=
  norm; try absorb_block;
  lazymatch goal with
  | H : blocks_inv _ _ |- _ =>
      unfold transcript_post, transcript_facts; cbn [ok_of length script_calls]; norm;
      repeat split;
      first [ intros; lia
            | intros _; apply (blocks_inv_line _ _ _ H); in_lines
            | intros _; apply (blocks_inv_block _ _ _ H); in_lines ]
  end.

Lemma try_block_transcript_from faults d tr :
  blocks_inv [] tr →
  transcript_post (first_fault faults 0 (length script_calls)) d
    (try_block faults {| rt_db := d; rt_open := []; rt_calls := 0; rt_trace := tr |}).
Proof.
  intros H. unfold try_block.
  unfold connect, toArray, updateMany, deleteMany, aggregate, createIndex, list_indexes, explain.
  cbn [first_fault length script_calls].
  repeat (step_block;
          try match goal with
              | |- transcript_post _ _ (match faults ?n with _ => _ end) =>
                  destruct (faults n) eqn:?; [ solve [transcript_done] | ]
              end).
  unfold console_log at 1. transcript_done.
Qed.

Lemma try_block_transcript faults d :
  transcript_post (first_fault faults 0 (length script_calls)) d (try_block faults (boot d)).
Proof. apply try_block_transcript_from, blocks_inv_nil. Qed.

(** The [finally] block adds to the trace and leaves the collection alone. *)
Lemma finally_block_extends faults s :
  rt_db (finally_block faults s).2 = rt_db s ∧
  ∃ evs, rt_trace (finally_block faults s).2 = rt_trace s ++ evs.
Proof.
  unfold finally_block, mbind, M_bind, close, driver_call.
  destruct (bool_decide (client ∈ rt_open s)); [destruct (faults (rt_calls s))|];
    simpl; (split; [reflexivity|]); eexists; rewrite <- ?app_assoc; reflexivity.
Qed.

Lemma transcript_facts_mono d ok s s' :
  rt_db s' = rt_db s → (∃ evs, rt_trace s' = rt_trace s ++ evs) →
  transcript_facts d ok s → transcript_facts d ok s'.
Proof.
  intros Hdb [evs Htr]. unfold transcript_facts. cbv zeta. rewrite Hdb, Htr.
  intros (Hix & H).
  split; [exact Hix|].
  repeat match type of H with
         | _ ∧ _ => let H1 := fresh in destruct H as [H1 H]; split;
                     [intros Hok; specialize (H1 Hok);
                      first [ apply elem_of_app; by left | by apply sublist_inserts_r ]|]
         end.
  intros Hok; specialize (H Hok). apply elem_of_app. by left.
Qed.

Lemma executeQueries_transcript faults d :
  transcript_facts d (ok_of (first_fault faults 0 (length script_calls)))
    (executeQueries faults (boot d)).2.
Proof.
  pose proof (try_block_transcript faults d) as Htry. unfold transcript_post in Htry.
  rewrite executeQueries_run.
  destruct (try_block faults (boot d)) as [[[]|e] s1]; cbn [snd] in Htry.
  - destruct (finally_block_extends faults s1) as [Hdb Htr].
    by apply (transcript_facts_mono _ _ s1).
  - destruct (finally_block_extends faults (emit (ConsoleError (error_line e)) s1))
      as [Hdb [evs Htr]].
    apply (transcript_facts_mono _ _ s1); [exact Hdb| |exact Htry].
    exists ([ConsoleError (error_line e)] ++ evs). rewrite Htr. simpl.
    by rewrite <- app_assoc.
Qed.

(** * More facts about the model *)

(** ** Filters *)

Lemma filter_none {A} (f : A → bool) l :
  Forall (λ x, f x = false) l → List.filter f l = [].
Proof. induction 1 as [|x l Hx _ IH]; [done|]. simpl. by rewrite Hx. Qed.

Lemma filter_all_true {A} (f : A → bool) l :
  Forall (λ x, f x = true) l → List.filter f l = l.
Proof. induction 1 as [|x l Hx _ IH]; [done|]. simpl. by rewrite Hx, IH. Qed.

(** ** Groups *)

Lemma group_by_snoc k books b :
  group_by k (books ++ [b]) = add_to_group (key_of k b) b (group_by k books).
Proof. unfold group_by. by rewrite fold_left_app. Qed.

Lemma add_to_group_keys key b gs :
  (add_to_group key b gs).*1 = if decide (key ∈ gs.*1) then gs.*1 else gs.*1 ++ [key].
Proof.
  induction gs as [|[k' bs] gs IH]; [done|].
  cbn [add_to_group]. destruct (String.eqb_spec key k') as [->|Hne].
  - cbn [fmap list_fmap fst]. rewrite decide_True; [done|]. apply list_elem_of_here.
  - cbn [fmap list_fmap fst] in *. rewrite IH.
    destruct (decide (key ∈ gs.*1)) as [Hin|Hnin].
    + rewrite decide_True; [done|]. by apply list_elem_of_further.
    + rewrite decide_False; [done|]. by intros [?|?]%elem_of_cons.
Qed.

Lemma add_to_group_members k books b gs :
  NoDup gs.*1 →
  (key_of k b ∈ gs.*1 ∨ List.filter (λ b', String.eqb (key_of k b') (key_of k b)) books = []) →
  Forall (members_of k books) gs →
  Forall (members_of k (books ++ [b])) (add_to_group (key_of k b) b gs).
Proof.
  unfold members_of.
  induction gs as [|[k' bs] gs IH]; intros Hnd Hk Hgs.
  - destruct Hk as [Hk|Hk]; [by apply elem_of_nil in Hk|].
    repeat constructor. simpl. rewrite List.filter_app, Hk. simpl.
    by rewrite String.eqb_refl.
  - apply Forall_cons in Hgs as [Hg Hgs]. simpl in Hg.
    apply NoDup_cons in Hnd as [Hk' Hnd]. cbn [add_to_group].
    destruct (String.eqb_spec (key_of k b) k') as [Heq|Hne].
    + constructor.
      * simpl. rewrite List.filter_app, Hg. simpl. rewrite Heq, String.eqb_refl. done.
      * eapply Forall_impl; [apply Forall_and; split; [exact Hgs|]|].
        { apply Forall_forall. intros g Hin. exact Hin. }
        intros g [Hg' Hin]. simpl in *. rewrite List.filter_app, Hg'. simpl.
        destruct (String.eqb_spec (key_of k b) g.1) as [Hgk|]; [|by rewrite app_nil_r].
        exfalso. apply Hk'. rewrite <- Heq, Hgk.
        apply list_elem_of_fmap. by exists g.
    + constructor.
      * simpl. rewrite List.filter_app, Hg. simpl.
        destruct (String.eqb_spec (key_of k b) k'); [done|]. by rewrite app_nil_r.
      * apply IH; [done| |done].
        destruct Hk as [Hk|Hk]; [|by right].
        left. by apply elem_of_cons in Hk as [?|?].
Qed.

Lemma group_by_spec k books :
  NoDup (group_by k books).*1 ∧
  Forall (members_of k books) (group_by k books) ∧
  (∀ b, b ∈ books → key_of k b ∈ (group_by k books).*1).
Proof.
  induction books as [|b books (Hnd & Hmem & Hkeys)] using rev_ind.
  - repeat split; [constructor|constructor|]. intros b Hb. by apply elem_of_nil in Hb.
  - rewrite group_by_snoc.
    assert (Hk : key_of k b ∈ (group_by k books).*1
                 ∨ List.filter (λ b', String.eqb (key_of k b') (key_of k b)) books = []).
    { destruct (decide (key_of k b ∈ (group_by k books).*1)) as [?|Hnin]; [by left|right].
      apply filter_none, Forall_forall. intros b' Hb'.
      destruct (String.eqb_spec (key_of k b') (key_of k b)) as [Heq|_]; [|done].
      exfalso. apply Hnin. rewrite <- Heq. by apply Hkeys. }
    repeat split.
    + rewrite add_to_group_keys. destruct (decide _) as [|Hnin]; [done|].
      apply NoDup_app. repeat split; [done| |apply NoDup_singleton].
      intros x Hx Hx'%list_elem_of_singleton. by subst x.
    + by apply add_to_group_members.
    + intros x Hx. rewrite add_to_group_keys.
      apply elem_of_app in Hx as [Hx|Hx%list_elem_of_singleton]; [|subst x].
      * destruct (decide _); [by apply Hkeys|]. apply elem_of_app. left. by apply Hkeys.
      * destruct (decide _) as [Hin|]; [done|]. apply elem_of_app. right.
        apply list_elem_of_here.
Qed.

(** ** Writes, again *)

Lemma update_one_year f u b : published_year (update_one f u b) = published_year b.
Proof. unfold update_one. destruct (matches f b), u; reflexivity. Qed.

Lemma update_one_genre f u b : genre (update_one f u b) = genre b.
Proof. unfold update_one. destruct (matches f b), u; reflexivity. Qed.

Lemma apply_update_same f b :
  apply_update (MulPrice f) b = b ↔ double_mul (price b) f = price b.
Proof.
  destruct b as [i t a g p y s]. simpl. split; [by intros [= ->]|].
  intros Hp. by rewrite Hp.
Qed.

(** A delete by year after the update removes what it removes before it:
    the update leaves the years alone. *)
Lemma deleteMany_kept y l :
  Forall (λ b, (y ≤ published_year b)%Z) l →
  deleteMany_books [YearLt y] l = l ∧ deletedCount (deleteMany_result [YearLt y] l) = 0.
Proof.
  intros H. unfold deleteMany_books, deleteMany_result. simpl.
  rewrite filter_all_true, filter_none; [done| |].
  - eapply Forall_impl; [exact H|]. intros b Hb. unfold matches. simpl.
    rewrite andb_true_r. by apply Z.ltb_ge.
  - eapply Forall_impl; [exact H|]. intros b Hb. unfold matches. simpl.
    rewrite andb_true_r. by apply negb_true_iff, Z.ltb_ge.
Qed.

Lemma updateMany_books_years f u l (P : Z → Prop) :
  Forall (λ b, P (published_year b)) l →
  Forall (λ b, P (published_year b)) (updateMany_books f u l).
Proof.
  intros H. unfold updateMany_books. apply Forall_fmap.
  eapply Forall_impl; [exact H|]. intros b Hb. simpl. by rewrite update_one_year.
Qed.

(** ** What a run leaves and prints, by the calls that succeeded *)

Lemma run_after_delete faults d :
  (∀ i, i < 4 → faults i = None) →
  books (rt_db (executeQueries faults (boot d)).2) = books_deleted d ∧
  deleted_line d ∈ rt_trace (executeQueries faults (boot d)).2.
Proof.
  intros Hfaults.
  assert (Hok : 4 ≤ ok_of (first_fault faults 0 (length script_calls))).
  { apply ok_of_ge; [simpl; lia|done]. }
  destruct (executeQueries_post faults d) as (_ & _ & Hbooks & _ & Hdel & _).
  split; [|apply Hdel; lia].
  rewrite Hbooks. by destruct (ok_of _) as [|[|[|[|k]]]]; try lia.
Qed.

Lemma run_transcript faults d n :
  n ≤ length script_calls →
  (∀ i, i < n → faults i = None) →
  ∃ ok, n ≤ ok ∧ transcript_facts d ok (executeQueries faults (boot d)).2.
Proof.
  intros Hn Hfaults. eexists. split; [|apply executeQueries_transcript].
  by apply ok_of_ge.
Qed.

(** * More of the two scripts *)

(** X1. [connectDB] makes one connection attempt.  When it is rejected
    the error goes to the caller as it is: nothing is printed, nothing is
    retried, no connection is open.  When it succeeds the script prints
    its line and leaves the connection open; it never closes it. *)
Theorem connectDB_outcome (faults : nat → option error) (env : gmap string string)
    (d : database) (u : string) :
  env !! "MONGODB_URI" = Some u →
  connectDB faults env (boot d)
  = match faults 0 with
    | Some e =>
        (Throw e,
         {| rt_db := d; rt_open := []; rt_calls := 1;
            rt_trace := [Call (OnClient Mongoose) (ConnectTo (Some u))] |})
    | None =>
        (Ret (),
         {| rt_db := d; rt_open := [Mongoose]; rt_calls := 1;
            rt_trace := [Call (OnClient Mongoose) (ConnectTo (Some u));
                         ConsoleLog [Str "connected to mongodb"]] |})
    end.
Proof.
  intros Henv. unfold connectDB, mongoose_connect. rewrite Henv.
  unfold mbind, M_bind, driver_call, boot. simpl. by destruct (faults 0).
Qed.

Lemma connectDB_outcome_witness :
  sample_env !! "MONGODB_URI" = Some "mongodb://localhost:27017" ∧
  rt_open (connectDB refused sample_env (boot empty_db)).2 = [] ∧
  rt_open (connectDB no_faults sample_env (boot empty_db)).2 = [Mongoose].
Proof.
  split; [reflexivity|].
  split.
  - by rewrite (connectDB_outcome refused sample_env empty_db _ eq_refl).
  - by rewrite (connectDB_outcome no_faults sample_env empty_db _ eq_refl).
Defined.

(** X2. A rejected step never rejects [executeQueries]: the [catch]
    swallows it.  The run resolves, with no connection left open and the
    closing line printed last, unless [close] itself is rejected; then the
    run rejects with the error of [close], not of the step, the client
    stays open and the closing line is not printed. *)
Theorem executeQueries_outcome (faults : nat → option error) (d : database) :
  let r := executeQueries faults (boot d) in
  let ff := first_fault faults 0 (length script_calls) in
  (r.1 = Ret () ∧ rt_open r.2 = [] ∧ last (rt_trace r.2) = Some (ConsoleLog closed_line)) ∨
  (∃ e, r.1 = Throw e ∧ 0 < ok_of ff ∧ faults (made_of ff) = Some e ∧
        rt_open r.2 = [client] ∧
        last (rt_trace r.2) = Some (Call (OnClient client) Close)).
Proof.
  intros r ff.
  destruct (executeQueries_post faults d) as (_ & _ & _ & _ & _ & _ & Hend).
  fold r ff in Hend.
  destruct (ok_of ff =? 0) eqn:Hok.
  - left. destruct Hend as (? & ? & tr' & ->). repeat split; [done..|].
    by rewrite (last_app_cons tr'), last_cons.
  - apply Nat.eqb_neq in Hok.
    destruct (faults (made_of ff)) as [e|] eqn:Hclose.
    + right. destruct Hend as (? & ? & tr' & ->). exists e.
      repeat split; first [done | lia | apply last_snoc].
    + left. destruct Hend as (? & ? & tr' & ->). repeat split; [done..|].
      by rewrite (last_app_cons tr'), last_cons.
Qed.

(** X3. Run again on the collection the first run left, the script
    deletes nothing, and prints a deleted count of 0, since no record
    below 1950 is left and the update does not touch the years; but it
    multiplies the price of every Fantasy record once more. *)
Theorem second_run_compounds (faults1 faults2 : nat → option error) (d : database) :
  (∀ i, i < 4 → faults1 i = None) →
  (∀ i, i < 4 → faults2 i = None) →
  let d1 := rt_db (executeQueries faults1 (boot d)).2 in
  let r2 := executeQueries faults2 (boot d1) in
  books (rt_db r2.2) = updateMany_books [GenreEq "Fantasy"] (MulPrice lit_1_1) (books d1) ∧
  length (books (rt_db r2.2)) = length (books d1) ∧
  ConsoleLog [Str "🗑️ Deleted "; Num 0; Str " books published before 1950."]
    ∈ rt_trace r2.2 ∧
  (∀ i b, books d1 !! i = Some b → genre b = "Fantasy" →
     price <$> books (rt_db r2.2) !! i = Some (double_mul (price b) lit_1_1)).
Proof.
  intros H1 H2 d1 r2.
  destruct (run_after_delete faults1 d H1) as [Hd1 _]. fold d1 in Hd1.
  destruct (run_after_delete faults2 d1 H2) as [Hd2 Hline]. fold r2 in Hd2, Hline.
  assert (Hyears : Forall (λ b, (1950 ≤ published_year b)%Z) (books_updated d1)).
  { apply updateMany_books_years. rewrite Hd1. apply deleteMany_books_year. }
  destruct (deleteMany_kept 1950 _ Hyears) as [Hkept Hzero].
  fold (books_deleted d1) in Hkept.
  assert (Hfinal : books (rt_db r2.2) = books_updated d1) by (by rewrite Hd2, Hkept).
  split; [exact Hfinal|]. split; [|split].
  - rewrite Hfinal. apply updateMany_books_length.
  - unfold deleted_line in Hline. by rewrite Hzero in Hline.
  - intros i b Hb Hg. rewrite Hfinal. unfold books_updated.
    rewrite updateMany_books_lookup, Hb. simpl. unfold update_one.
    rewrite matches_genre, Hg, String.eqb_refl. reflexivity.
Qed.

Lemma second_run_compounds_witness :
  (∀ i, i < 4 → no_faults i = None) ∧
  price <$> books (rt_db (executeQueries no_faults
              (boot (rt_db (executeQueries no_faults (boot seeded_db)).2))).2)
  = [double_mul (double_mul (double_of_Z 10) lit_1_1) lit_1_1;
     double_mul (double_mul (double_of_Z 20) lit_1_1) lit_1_1;
     double_mul (double_mul (double_of_Z 30) lit_1_1) lit_1_1].
Proof.
  split; [done|].
  rewrite (proj1 (second_run_compounds no_faults no_faults seeded_db
                    (λ _ _, eq_refl) (λ _ _, eq_refl))).
  by vm_compute.
Defined.

Lemma filter_filter_impl {A} (f g : A → bool) l :
  (∀ x, f x = true → g x = true) →
  List.filter f (List.filter g l) = List.filter f l.
Proof.
  intros Hfg. induction l as [|x l IH]; [done|]. simpl.
  destruct (g x) eqn:Hg; simpl; rewrite IH; [done|].
  destruct (f x) eqn:Hf; [|done]. by rewrite (Hfg _ Hf) in Hg.
Qed.

(** X4. The first read prints the Fantasy records as they are before the
    update, so with their old prices.  The count that the line after the
    update prints is the number of those records whose price the
    multiplication changes: at most the number of records the read showed,
    and less when a price (a zero, say) is its own product with 1.1. *)
Theorem fantasy_read_shows_old_prices (faults : nat → option error) (d : database) :
  faults 0 = None → faults 1 = None → faults 2 = None →
  let tr := rt_trace (executeQueries faults (boot d)).2 in
  let fantasy_books := List.filter (λ b, String.eqb (genre b) "Fantasy") (books d) in
  let changed :=
    List.filter (λ b, negb (bool_decide (double_mul (price b) lit_1_1 = price b)))
                fantasy_books in
  ConsoleLog [Str (nl "📚 Found Fantasy Books:"); Docs (project <$> fantasy_books)] ∈ tr ∧
  ConsoleLog [Str "✏️ Updated "; Num (length changed); Str " Fantasy book prices by 10%."]
    ∈ tr ∧
  length changed ≤ length fantasy_books.
Proof.
  intros H0 H1 H2 tr fantasy_books changed.
  assert (Hfaults : ∀ i, i < 3 → faults i = None).
  { intros [|[|[|i]]] ?; (done || lia). }
  assert (Hfilter : List.filter (matches [GenreEq "Fantasy"]) (books d) = fantasy_books).
  { apply List.filter_ext. intros b. apply matches_genre. }
  pose proof (ok_of_ge faults 3 ltac:(simpl; lia) Hfaults) as Hok.
  pose proof (executeQueries_transcript faults d) as (_ & Hfound & _).
  destruct (executeQueries_post faults d) as (_ & _ & _ & Hupdated & _).
  fold tr in Hfound, Hupdated.
  assert (Hcount :
    modifiedCount (updateMany_result [GenreEq "Fantasy"] (MulPrice lit_1_1) (books d))
    = length changed).
  { simpl. unfold changed, fantasy_books. clear. induction (books d) as [|b l IH]; [done|].
    simpl. unfold is_modified at 1. rewrite matches_genre.
    destruct (String.eqb (genre b) "Fantasy"); simpl; [|exact IH].
    rewrite (bool_decide_ext _ _ (apply_update_same lit_1_1 b)).
    destruct (bool_decide _); simpl; by rewrite IH. }
  split; [|split].
  - specialize (Hfound ltac:(lia)). unfold found_line, cursor_result, cursor_books in Hfound.
    simpl in Hfound. by rewrite Hfilter in Hfound.
  - specialize (Hupdated ltac:(lia)). unfold updated_line in Hupdated.
    by rewrite Hcount in Hupdated.
  - apply filter_length_le.
Qed.

Lemma fantasy_read_shows_old_prices_witness :
  no_faults 0 = None ∧ no_faults 1 = None ∧ no_faults 2 = None ∧
  ConsoleLog [Str (nl "📚 Found Fantasy Books:");
              Docs (project <$> [fantasy 1 10; fantasy 2 20; fantasy 3 30])]
    ∈ rt_trace (executeQueries no_faults (boot seeded_db)).2 ∧
  ConsoleLog [Str "✏️ Updated "; Num 3; Str " Fantasy book prices by 10%."]
    ∈ rt_trace (executeQueries no_faults (boot seeded_db)).2.
Proof.
  pose proof (fantasy_read_shows_old_prices no_faults seeded_db eq_refl eq_refl eq_refl)
    as (Hfound & Hupdated & _).
  repeat split; [exact Hfound|exact Hupdated].
Defined.

(** X5. The delete drops the records before 1950 and the next read asks
    for the records after 1950, so the read shows what it would have shown
    without the delete: the in-stock records of the updated collection
    published after 1950.  A record of 1950 itself is on neither side: it
    stays in the collection and the read leaves it out. *)
Theorem read_after_1950 (faults : nat → option error) (d : database) :
  (∀ i, i < 5 → faults i = None) →
  let r := executeQueries faults (boot d) in
  ConsoleLog [Str (nl "📘 Books In Stock & Published After 1950:");
              Docs (cursor_result inStockAfter1950_cursor (books_updated d))]
    ∈ rt_trace r.2 ∧
  (∀ b, b ∈ cursor_books inStockAfter1950_cursor (books (rt_db r.2))
        ↔ b ∈ books_updated d ∧ in_stock b = true ∧ (1950 < published_year b)%Z) ∧
  (∀ b, b ∈ books_updated d → published_year b = 1950%Z →
        b ∈ books (rt_db r.2) ∧
        b ∉ cursor_books inStockAfter1950_cursor (books (rt_db r.2))).
Proof.
  intros Hfaults r.
  destruct (run_after_delete faults d) as [Hbooks _]; [intros i ?; apply Hfaults; lia|].
  fold r in Hbooks. rewrite Hbooks.
  assert (Hsame : cursor_books inStockAfter1950_cursor (books_deleted d)
                  = cursor_books inStockAfter1950_cursor (books_updated d)).
  { unfold cursor_books, books_deleted, deleteMany_books. simpl.
    apply filter_filter_impl. intros b. unfold matches. simpl.
    rewrite !andb_true_r. intros [_ Hgt%Z.ltb_lt]%andb_prop.
    apply negb_true_iff, Z.ltb_ge. lia. }
  assert (Hin : ∀ b, b ∈ cursor_books inStockAfter1950_cursor (books_deleted d)
                     ↔ b ∈ books_updated d ∧ in_stock b = true
                       ∧ (1950 < published_year b)%Z).
  { intros b. rewrite Hsame. unfold cursor_books. simpl.
    rewrite list_elem_of_In, filter_In, <- list_elem_of_In.
    unfold matches. simpl. rewrite andb_true_r, andb_true_iff, Z.ltb_lt.
    by destruct (in_stock b). }
  split; [|split].
  - destruct (run_transcript faults d 5) as (ok & Hok & _ & _ & Hline & _);
      [simpl; lia|done|].
    specialize (Hline ltac:(lia)). unfold in_stock_line, cursor_result in Hline.
    fold r in Hline. by rewrite Hsame in Hline.
  - exact Hin.
  - intros b Hb Hy. split.
    + unfold books_deleted, deleteMany_books.
      apply list_elem_of_In, filter_In. split; [by apply list_elem_of_In|].
      unfold matches. simpl. rewrite andb_true_r, Hy. reflexivity.
    + rewrite Hin. intros (_ & _ & Hgt). lia.
Qed.

Lemma read_after_1950_witness :
  (∀ i, i < 5 → no_faults i = None) ∧
  ConsoleLog [Str (nl "📘 Books In Stock & Published After 1950:");
              Docs (cursor_result inStockAfter1950_cursor (books_updated seeded_db))]
    ∈ rt_trace (executeQueries no_faults (boot seeded_db)).2.
Proof.
  split; [done|].
  exact (proj1 (read_after_1950 no_faults seeded_db (λ _ _, eq_refl))).
Defined.

(** ** Listings by price *)

Lemma price_cursor_books dir books :
  cursor_books (sort (FPrice, dir) (find [] projection)) books
  = sort_by (book_le (FPrice, dir)) books.
Proof. unfold cursor_books. simpl. by rewrite filter_all. Qed.

Lemma price_listing_perm dir books :
  cursor_result (sort (FPrice, dir) (find [] projection)) books ≡ₚ project <$> books.
Proof. unfold cursor_result. by rewrite price_cursor_books, sort_by_perm. Qed.

(** X6. The two price listings each show every record of the collection
    once, in ascending and in descending order of price (a NaN counting as
    the smallest price).  The read of the three most expensive books is a
    sort of its own; whatever order the server gives to records of equal
    price, in that read and in the descending listing, the read returns
    three records, or all when there are fewer, and none of them is
    cheaper than a record that comes after the third place of the
    descending listing. *)
Theorem price_listings (faults : nat → option error) (d : database) :
  (∀ i, i < 17 → faults i = None) →
  let tr := rt_trace (executeQueries faults (boot d)).2 in
  let after := books_deleted d in
  let booksAsc := cursor_result asc_cursor after in
  let booksDesc := cursor_result desc_cursor after in
  book_lines booksAsc `sublist_of` tr ∧
  book_lines booksDesc `sublist_of` tr ∧
  booksAsc ≡ₚ project <$> after ∧
  booksDesc ≡ₚ project <$> after ∧
  sorted price_asc booksAsc = true ∧
  sorted price_desc booksDesc = true ∧
  (∀ top3 desc,
     answers top3Books_cursor after top3 → answers desc_cursor after desc →
     length top3 = length after `min` 3 ∧
     ∀ x y, x ∈ top3 → y ∈ drop 3 desc → double_le (price y) (price x) = true).
Proof.
  intros Hfaults tr after booksAsc booksDesc.
  destruct (run_transcript faults d 17) as
    (ok & Hok & _ & _ & _ & _ & _ & _ & _ & _ & _ & _ & Hasc & Hdesc & _);
    [simpl; lia|done|].
  fold tr after in Hasc, Hdesc.
  split; [apply Hasc; lia|]. split; [apply Hdesc; lia|].
  split; [apply price_listing_perm|]. split; [apply price_listing_perm|].
  split; [|split].
  - unfold booksAsc, cursor_result, asc_cursor. rewrite price_cursor_books.
    apply (sorted_fmap (book_le (FPrice, Asc))); [done|].
    apply sort_by_sorted, price_le_total.
  - unfold booksDesc, cursor_result, desc_cursor. rewrite price_cursor_books.
    apply (sorted_fmap (book_le (FPrice, Desc))); [done|].
    apply sort_by_sorted, price_le_total.
  - intros top3 desc (o1 & Hp1 & Hs1 & ->) (o2 & Hp2 & Hs2 & ->).
    simpl in Hp1, Hp2. rewrite filter_all in Hp1, Hp2.
    specialize (Hs1 _ eq_refl). specialize (Hs2 _ eq_refl). simpl.
    split; [by rewrite length_take, Hp1, Nat.min_comm|].
    intros x y Hx Hy.
    apply (sorted_perm_take_drop (book_le (FPrice, Desc)) (book_le_total _) (book_le_trans _)
             3 o1 o2 x y); [by rewrite Hp1, Hp2|done..].
Qed.

Lemma price_listings_witness :
  (∀ i, i < 17 → no_faults i = None) ∧
  proj_price <$> cursor_result desc_cursor (books_deleted seeded_db)
  = double_of_Z <$> [33; 22; 11]%Z ∧
  sorted price_desc (cursor_result desc_cursor (books_deleted seeded_db)) = true.
Proof.
  split; [done|]. split; [by vm_compute|].
  exact (proj1 (proj2 (proj2 (proj2 (proj2 (proj2
    (price_listings no_faults seeded_db (λ _ _, eq_refl)))))))).
Defined.

(** ** Indexes *)

Lemma createIndex_indexes_elem k ix : k ∈ createIndex_indexes k ix.
Proof.
  unfold createIndex_indexes. destruct (bool_decide_reflect (k ∈ ix)); [done|].
  apply elem_of_app. right. apply list_elem_of_here.
Qed.

Lemma createIndex_indexes_prefix k ix : ix `prefix_of` createIndex_indexes k ix.
Proof.
  unfold createIndex_indexes. destruct (bool_decide (k ∈ ix)); [done|].
  by apply prefix_app_r.
Qed.

Lemma createIndex_indexes_NoDup k ix : NoDup ix → NoDup (createIndex_indexes k ix).
Proof.
  intros H. unfold createIndex_indexes. destruct (bool_decide_reflect (k ∈ ix)); [done|].
  apply NoDup_app. repeat split; [done| |apply NoDup_singleton].
  intros x Hx Hx'%list_elem_of_singleton. by subst x.
Qed.

Lemma createIndex_indexes_present k ix : k ∈ ix → createIndex_indexes k ix = ix.
Proof. intros H. unfold createIndex_indexes. by rewrite bool_decide_true. Qed.

(** X7. After the two [createIndex] calls the collection has the index
    on title and the compound index on author and year, after the indexes
    it had, which are all kept in their order; the list the script prints
    is that list.  An index that is there already is not added again, so
    creating the two once more changes nothing. *)
Theorem indexes_after_run (faults : nat → option error) (d : database) :
  (∀ i, i < 15 → faults i = None) →
  let r := executeQueries faults (boot d) in
  let ix := indexes (rt_db r.2) in
  title_index ∈ ix ∧ compound_index ∈ ix ∧
  indexes d `prefix_of` ix ∧
  length ix ≤ length (indexes d) + 2 ∧
  (NoDup (indexes d) → NoDup ix) ∧
  indexes_created ix = ix ∧
  ConsoleLog [Str "📄 Current Indexes on 'books' Collection:"; IndexList ix] ∈ rt_trace r.2.
Proof.
  intros Hfaults r ix.
  destruct (run_transcript faults d 15) as
    (ok & Hok & Hix & _ & _ & _ & _ & _ & _ & _ & _ & Hline & _); [simpl; lia|done|].
  fold r in Hix, Hline. fold ix in Hix.
  assert (Hcreated : ix = indexes_created (indexes d)).
  { rewrite Hix. by destruct ok as [|[|[|[|[|[|[|[|[|[|[|[|[|[|k]]]]]]]]]]]]]]; try lia. }
  assert (Htitle : title_index ∈ ix).
  { rewrite Hcreated. unfold indexes_created.
    eapply elem_of_prefix; [apply createIndex_indexes_elem|apply createIndex_indexes_prefix]. }
  assert (Hcompound : compound_index ∈ ix).
  { rewrite Hcreated. apply createIndex_indexes_elem. }
  repeat split; try done.
  - rewrite Hcreated. unfold indexes_created.
    etransitivity; apply createIndex_indexes_prefix.
  - rewrite Hcreated. unfold indexes_created, createIndex_indexes.
    repeat destruct (bool_decide _); rewrite ?length_app; simpl; lia.
  - intros Hnd. rewrite Hcreated. by do 2 apply createIndex_indexes_NoDup.
  - unfold indexes_created.
    rewrite (createIndex_indexes_present title_index) by done.
    by apply createIndex_indexes_present.
  - rewrite Hcreated. apply Hline. lia.
Qed.

Lemma indexes_after_run_witness :
  (∀ i, i < 15 → no_faults i = None) ∧
  indexes (rt_db (executeQueries no_faults (boot seeded_db)).2)
  = [[(FId, Asc)]; title_index; compound_index] ∧
  title_index ∈ indexes (rt_db (executeQueries no_faults (boot seeded_db)).2).
Proof.
  split; [done|]. split; [by vm_compute|].
  exact (proj1 (indexes_after_run no_faults seeded_db (λ _ _, eq_refl))).
Defined.

(** ** Query plans *)

Lemma explain_result_served f ixs books :
  existsb (index_serves f) ixs = true →
  explain_result f ixs books
  = let n := length (List.filter (matches f) books) in
    {| nReturned := n; totalKeysExamined := n; totalDocsExamined := n |}.
Proof. intros H. unfold explain_result. by rewrite H. Qed.

Lemma explain_result_scan f ixs books :
  existsb (index_serves f) ixs = false →
  explain_result f ixs books
  = {| nReturned := length (List.filter (matches f) books);
       totalKeysExamined := 0; totalDocsExamined := length books |}.
Proof. intros H. unfold explain_result. by rewrite H. Qed.

Lemma existsb_createIndex (f : index_keys → bool) k ix :
  existsb f (createIndex_indexes k ix) = existsb f ix || f k.
Proof.
  unfold createIndex_indexes. destruct (bool_decide_reflect (k ∈ ix)) as [Hin|_].
  - destruct (f k) eqn:Hk; [|by rewrite orb_false_r].
    rewrite orb_true_r. apply existsb_exists. exists k. split; [|done].
    by apply list_elem_of_In.
  - rewrite existsb_app. simpl. by rewrite orb_false_r.
Qed.

(** X8. The two query plans are asked for after the indexes are created.
    The query on title is then served by the title index: it examines as
    many keys and records as it returns.  The query on price is served by no
    index the script creates: unless the collection already had an index
    led by price, it examines every record of the collection and no key.
    (The planner is modelled as using an index exactly when the leading key
    of one is a field of the filter.) *)
Theorem explain_plans (faults : nat → option error) (d : database) :
  (∀ i, i < 19 → faults i = None) →
  let tr := rt_trace (executeQueries faults (boot d)).2 in
  let n_title :=
    length (List.filter (λ b, String.eqb (title b) "The Alchemist") (books_deleted d)) in
  let n_price :=
    length (List.filter (λ b, SFeqb (price b) lit_10_99) (books_deleted d)) in
  ConsoleLog [Json {| nReturned := n_title; totalKeysExamined := n_title;
                      totalDocsExamined := n_title |}] ∈ tr ∧
  (Forall (λ ix : index_keys, fst <$> head ix ≠ Some FPrice) (indexes d) →
   ConsoleLog [Json {| nReturned := n_price; totalKeysExamined := 0;
                       totalDocsExamined := length (books_deleted d) |}] ∈ tr).
Proof.
  intros Hfaults tr n_title n_price.
  destruct (run_transcript faults d 19) as
    (ok & Hok & _ & _ & _ & _ & _ & _ & _ & _ & _ & _ & _ & _ & Htitle & Hprice);
    [simpl; lia|done|].
  fold tr in Htitle, Hprice.
  assert (Hmt : ∀ l, List.filter (matches [TitleEq "The Alchemist"]) l
                     = List.filter (λ b, String.eqb (title b) "The Alchemist") l).
  { intros l. apply List.filter_ext. intros b. unfold matches. simpl. apply andb_true_r. }
  assert (Hmp : ∀ l, List.filter (matches [PriceEq lit_10_99]) l
                     = List.filter (λ b, SFeqb (price b) lit_10_99) l).
  { intros l. apply List.filter_ext. intros b. unfold matches. simpl. apply andb_true_r. }
  split.
  - specialize (Htitle ltac:(lia)). unfold indexedExplain_line in Htitle.
    rewrite explain_result_served in Htitle.
    + cbv zeta in Htitle. by rewrite Hmt in Htitle.
    + unfold indexes_created. rewrite !existsb_createIndex.
      by rewrite orb_true_r.
  - intros Hix. specialize (Hprice ltac:(lia)). unfold nonIndexedExplain_line in Hprice.
    rewrite explain_result_scan in Hprice.
    + by rewrite Hmp in Hprice.
    + unfold indexes_created. rewrite !existsb_createIndex. simpl.
      rewrite !orb_false_r. clear -Hix.
      induction Hix as [|ix l Hhead _ IH]; [done|]. simpl. rewrite IH, orb_false_r.
      destruct ix as [|[fld dir] ix]; [done|]. simpl in *.
      rewrite orb_false_r. apply bool_decide_false. congruence.
Qed.

Lemma explain_plans_witness :
  (∀ i, i < 19 → no_faults i = None) ∧
  Forall (λ ix : index_keys, fst <$> head ix ≠ Some FPrice) (indexes seeded_db) ∧
  ConsoleLog [Json {| nReturned := 0; totalKeysExamined := 0; totalDocsExamined := 3 |}]
    ∈ rt_trace (executeQueries no_faults (boot seeded_db)).2.
Proof.
  assert (Hix : Forall (λ ix : index_keys, fst <$> head ix ≠ Some FPrice)
                       (indexes seeded_db)) by (by repeat constructor).
  split; [done|]. split; [exact Hix|].
  exact (proj2 (explain_plans no_faults seeded_db (λ _ _, eq_refl)) Hix).
Defined.

(** ** Group documents *)

Lemma add_to_group_nonempty key b gs :
  Forall (λ g : string * list book, g.2 ≠ []) gs →
  Forall (λ g : string * list book, g.2 ≠ []) (add_to_group key b gs).
Proof.
  induction 1 as [|[k' bs] gs Hg Hgs IH]; [by repeat constructor|].
  cbn [add_to_group]. destruct (String.eqb key k'); constructor; try done.
  simpl. intros Hnil. by apply app_eq_nil in Hnil as [_ ?].
Qed.

Lemma group_by_nonempty k books :
  Forall (λ g : string * list book, g.2 ≠ []) (group_by k books).
Proof.
  induction books as [|b books IH] using rev_ind; [constructor|].
  rewrite group_by_snoc. by apply add_to_group_nonempty.
Qed.

Lemma group_docs_spec w k books :
  let docs := group_doc_of w <$> group_by k books in
  NoDup (grp_id <$> docs) ∧
  Forall (group_doc_ok w k books) docs ∧
  (∀ b, b ∈ books → key_of k b ∈ grp_id <$> docs).
Proof.
  intros docs. destruct (group_by_spec k books) as (Hnd & Hmem & Hkeys).
  pose proof (group_by_nonempty k books) as Hne.
  assert (Hids : grp_id <$> docs = (group_by k books).*1).
  { unfold docs. rewrite <- list_fmap_compose. reflexivity. }
  rewrite Hids. split; [done|]. split; [|done].
  unfold docs. apply Forall_fmap.
  eapply Forall_impl; [apply Forall_and; split; [exact Hmem|exact Hne]|].
  intros [key ms] [Hms Hnonempty]. unfold members_of in Hms. simpl in *.
  unfold group_doc_ok, count_key. simpl. rewrite <- Hms.
  split; [reflexivity|]. split; [|reflexivity].
  destruct ms; [done|simpl; lia].
Qed.

(** A pipeline that only sorts the groups keeps them all. *)
Lemma aggregate_sorted p f dir books :
  pipe_post p = [StageSort f dir] →
  aggregate_result p books
  = sort_by (group_le f dir) (group_doc_of (pipe_avg p) <$> group_by (pipe_key p) books).
Proof. intros Hp. unfold aggregate_result. by rewrite Hp. Qed.

Lemma sorted_groups_spec w k le books :
  let docs := sort_by le (group_doc_of w <$> group_by k books) in
  NoDup (grp_id <$> docs) ∧
  Forall (group_doc_ok w k books) docs ∧
  (∀ b, b ∈ books → key_of k b ∈ grp_id <$> docs).
Proof.
  intros docs. destruct (group_docs_spec w k books) as (Hnd & Hok & Hkeys).
  unfold docs. split; [by rewrite sort_by_perm|]. split; [by rewrite sort_by_perm|].
  intros b Hb. rewrite sort_by_perm. by apply Hkeys.
Qed.

Lemma group_le_total f dir a b : group_le f dir a b = false → group_le f dir b a = true.
Proof.
  assert (Hasc : ∀ a b, group_le f Asc a b = false → group_le f Asc b a = true).
  { clear. intros a b. destruct f; simpl.
    - intros H. destruct (String.leb_total (grp_id a) (grp_id b)); congruence.
    - destruct (avgPrice a), (avgPrice b); simpl; try done. apply double_le_total.
    - intros H%Nat.leb_gt. apply Nat.leb_le. lia. }
  destruct dir; [apply Hasc|]. apply (Hasc b a).
Qed.

(** ** Decades *)

Lemma toString_inj a b : toString a = toString b → a = b.
Proof.
  unfold toString. intros H.
  assert (Hnonnil : ∀ z, Z.to_int z ≠ Decimal.Pos Decimal.Nil
                         ∧ Z.to_int z ≠ Decimal.Neg Decimal.Nil).
  { intros [|p|p]; simpl; split; try done; intros [= Hp];
      by apply DecimalPos.Unsigned.to_uint_nonnil in Hp. }
  apply (f_equal NilZero.int_of_string) in H.
  rewrite !NilZero.isi in H by apply Hnonnil.
  injection H as H. apply (f_equal Z.of_int) in H. by rewrite !DecimalZ.of_to in H.
Qed.

Lemma append_s_inj (a b : string) : a +:+ "s" = b +:+ "s" → a = b.
Proof.
  revert b. induction a as [|c a IH]; intros [|c' b]; simpl; try done.
  - intros [= _ H]. by destruct b.
  - intros [= _ H]. by destruct a.
  - intros [= -> H]. by rewrite (IH b).
Qed.

Lemma decade_of_eq y y' : decade_of y = decade_of y' ↔ (y ÷ 10 = y' ÷ 10)%Z.
Proof.
  unfold decade_of. rewrite !Z.rem_eq by done.
  split.
  - intros H%append_s_inj%toString_inj. lia.
  - intros H. do 2 f_equal. lia.
Qed.

(** X9. The decade listing has one line per decade that occurs, in the
    order of the decade names as strings, each with the number of records
    of that decade, which is never 0.  Two records are in one group exactly
    when their years have the same quotient by 10, rounded toward zero (so
    the years -9 to 9 make one decade). *)
Theorem decade_listing (faults : nat → option error) (d : database) :
  (∀ i, i < 12 → faults i = None) →
  let booksByDecade := aggregate_result booksByDecade_pipeline (books_deleted d) in
  decade_lines booksByDecade `sublist_of` rt_trace (executeQueries faults (boot d)).2 ∧
  NoDup (grp_id <$> booksByDecade) ∧
  Forall (group_doc_ok false KeyDecade (books_deleted d)) booksByDecade ∧
  (∀ b, b ∈ books_deleted d → decade_of (published_year b) ∈ grp_id <$> booksByDecade) ∧
  sorted (λ a b, String.leb (grp_id a) (grp_id b)) booksByDecade = true ∧
  (∀ y y', decade_of y = decade_of y' ↔ (y ÷ 10 = y' ÷ 10)%Z).
Proof.
  intros Hfaults booksByDecade.
  destruct (run_transcript faults d 12) as
    (ok & Hok & _ & _ & _ & _ & _ & _ & _ & _ & Hlines & _); [simpl; lia|done|].
  split; [apply Hlines; lia|].
  unfold booksByDecade. rewrite (aggregate_sorted _ GId Asc) by done.
  destruct (sorted_groups_spec false KeyDecade (group_le GId Asc) (books_deleted d))
    as (Hnd & Hdocs & Hkeys).
  repeat split; try done.
  - apply (sort_by_sorted (group_le GId Asc)), group_le_total.
  - by intros ?%decade_of_eq.
  - by intros ?%decade_of_eq.
Qed.

Lemma decade_listing_witness :
  (∀ i, i < 12 → no_faults i = None) ∧
  decade_lines [ {| grp_id := "2000s"; avgPrice := None; totalBooks := 3 |} ]
    `sublist_of` rt_trace (executeQueries no_faults (boot seeded_db)).2.
Proof.
  split; [done|].
  exact (proj1 (decade_listing no_faults seeded_db (λ _ _, eq_refl))).
Defined.

Lemma count_desc_trans a b c :
  group_le GCount Desc a b = true → group_le GCount Desc b c = true →
  group_le GCount Desc a c = true.
Proof. simpl. rewrite !Nat.leb_le. lia. Qed.

(** X10. When the collection is not empty, the line for the author with
    most books names one author, with the number of that author's records,
    and no author has more records than that. *)
Theorem author_with_most_books (faults : nat → option error) (d : database) :
  (∀ i, i < 11 → faults i = None) →
  books_deleted d ≠ [] →
  ∃ author,
    aggregate_result topAuthorByBooks_pipeline (books_deleted d) = [author] ∧
    ConsoleLog [Str "🏆 Author with Most Books: "; Str (grp_id author);
                Str " ("; Num (totalBooks author); Str " books)"]
      ∈ rt_trace (executeQueries faults (boot d)).2 ∧
    totalBooks author = count_key KeyAuthor (grp_id author) (books_deleted d) ∧
    0 < totalBooks author ∧
    ∀ a, count_key KeyAuthor a (books_deleted d) ≤ totalBooks author.
Proof.
  intros Hfaults Hbooks.
  assert (Hok : 11 ≤ ok_of (first_fault faults 0 (length script_calls))).
  { apply ok_of_ge; [simpl; lia|done]. }
  destruct (executeQueries_post faults d) as (_ & _ & _ & _ & _ & Htop & _).
  specialize (Htop ltac:(lia)). unfold top_author_line in Htop.
  set (docs := sort_by (group_le GCount Desc)
                 (group_doc_of false <$> group_by KeyAuthor (books_deleted d))).
  assert (Hagg : aggregate_result topAuthorByBooks_pipeline (books_deleted d) = take 1 docs)
    by reflexivity.
  destruct (sorted_groups_spec false KeyAuthor (group_le GCount Desc) (books_deleted d))
    as (Hnd & Hdocs & Hkeys). fold docs in Hnd, Hdocs, Hkeys.
  assert (Hsorted : sorted (group_le GCount Desc) docs = true)
    by apply sort_by_sorted, group_le_total.
  destruct docs as [|author rest] eqn:Hd.
  { destruct (books_deleted d) as [|b l]; [done|].
    specialize (Hkeys b (list_elem_of_here _ _)). by apply elem_of_nil in Hkeys. }
  exists author. rewrite Hagg in *. simpl in Htop |- *.
  apply Forall_cons in Hdocs as [(Hcount & Hpos & _) Hrest].
  pose proof (sorted_head_le _ _ _ count_desc_trans Hsorted) as Hmax.
  repeat split; try done.
  intros a. destruct (count_key KeyAuthor a (books_deleted d)) as [|n] eqn:Ha; [lia|].
  rewrite <- Ha. clear n Ha.
  destruct (decide (a = grp_id author)) as [->|Hne]; [lia|].
  destruct (decide (a ∈ grp_id <$> rest)) as [Hin|Hnin].
  - apply list_elem_of_fmap in Hin as (g & -> & Hg).
    destruct (proj1 (Forall_forall _ _) Hrest g Hg) as (Hcg & _). rewrite <- Hcg.
    apply (proj1 (Forall_forall _ _) Hmax) in Hg. simpl in Hg. by apply Nat.leb_le.
  - unfold count_key. rewrite filter_none; [simpl; lia|].
    apply Forall_forall. intros b Hb.
    destruct (String.eqb_spec (key_of KeyAuthor b) a) as [Heq|]; [|done].
    specialize (Hkeys b Hb). rewrite Heq in Hkeys.
    apply elem_of_cons in Hkeys as [?|?]; done.
Qed.

Lemma author_with_most_books_witness :
  (∀ i, i < 11 → no_faults i = None) ∧ books_deleted seeded_db ≠ [] ∧
  ∃ author, aggregate_result topAuthorByBooks_pipeline (books_deleted seeded_db) = [author]
            ∧ totalBooks author = 3.
Proof.
  assert (Hne : books_deleted seeded_db ≠ []) by done.
  split; [done|]. split; [exact Hne|].
  destruct (author_with_most_books no_faults seeded_db (λ _ _, eq_refl) Hne)
    as (author & Hagg & _).
  exists author. split; [exact Hagg|].
  vm_compute in Hagg. by injection Hagg as <-.
Defined.

Lemma group_doc_ok_count w k books g : group_doc_ok w k books g → group_count_ok k books g.
Proof. intros (? & ? & _). by split. Qed.

(** X11. For a collection whose records all carry a price, as the
    records of the model do, the listing by genre has one line per genre
    that occurs, in descending order of the average it prints, each with
    the number of records of the genre; the listing of top authors has at
    most five lines of that kind, one author each, in the same order. *)
Theorem average_listings (faults : nat → option error) (d : database) :
  (∀ i, i < 10 → faults i = None) →
  let tr := rt_trace (executeQueries faults (boot d)).2 in
  let after := books_deleted d in
  let topAuthors := aggregate_result topAuthors_pipeline after in
  let avgPriceByGenre := aggregate_result avgPriceByGenre_pipeline after in
  avg_event <$> topAuthors `sublist_of` tr ∧
  avg_event <$> avgPriceByGenre `sublist_of` tr ∧
  NoDup (grp_id <$> avgPriceByGenre) ∧
  Forall (group_count_ok KeyGenre after) avgPriceByGenre ∧
  (∀ b, b ∈ after → genre b ∈ grp_id <$> avgPriceByGenre) ∧
  sorted (group_le GAvgPrice Desc) avgPriceByGenre = true ∧
  length topAuthors ≤ 5 ∧
  NoDup (grp_id <$> topAuthors) ∧
  Forall (group_count_ok KeyAuthor after) topAuthors ∧
  sorted (group_le GAvgPrice Desc) topAuthors = true.
Proof.
  intros Hfaults tr after topAuthors avgPriceByGenre.
  destruct (run_transcript faults d 10) as
    (ok & Hok & _ & _ & _ & _ & _ & _ & Htop & Hgenre & _); [simpl; lia|done|].
  fold tr after in Htop, Hgenre.
  split; [apply Htop; lia|]. split; [apply Hgenre; lia|].
  destruct (sorted_groups_spec true KeyGenre (group_le GAvgPrice Desc) after)
    as (Hnd & Hdocs & Hkeys).
  destruct (sorted_groups_spec true KeyAuthor (group_le GAvgPrice Desc) after)
    as (Hnd' & Hdocs' & _).
  pose proof (Forall_impl _ _ _ Hdocs (group_doc_ok_count true KeyGenre after)) as Hcount.
  pose proof (Forall_impl _ _ _ Hdocs' (group_doc_ok_count true KeyAuthor after)) as Hcount'.
  unfold avgPriceByGenre. rewrite (aggregate_sorted _ GAvgPrice Desc) by done.
  split; [done|]. split; [done|]. split; [done|].
  split; [apply (sort_by_sorted (group_le GAvgPrice Desc)), group_le_total|].
  assert (Htake : topAuthors
                  = take 5 (sort_by (group_le GAvgPrice Desc)
                              (group_doc_of true <$> group_by KeyAuthor after)))
    by reflexivity.
  rewrite Htake. split; [rewrite length_take; lia|]. split; [|split].
  - rewrite fmap_take. eapply sublist_NoDup; [exact Hnd'|apply sublist_take].
  - by apply Forall_take.
  - apply sorted_take, (sort_by_sorted (group_le GAvgPrice Desc)), group_le_total.
Qed.

Lemma average_listings_witness :
  (∀ i, i < 10 → no_faults i = None) ∧
  totalBooks <$> aggregate_result avgPriceByGenre_pipeline (books_deleted seeded_db) = [3] ∧
  Forall (group_count_ok KeyGenre (books_deleted seeded_db))
    (aggregate_result avgPriceByGenre_pipeline (books_deleted seeded_db)).
Proof.
  split; [done|]. split; [by vm_compute|].
  exact (proj1 (proj2 (proj2 (proj2
    (average_listings no_faults seeded_db (λ _ _, eq_refl)))))).
Defined.

(** X13. A line of an average listing needs an average: [toFixed] is
    called on the [avgPrice] of the group.  The listing prints the lines
    of the groups up to the first one without an average and throws a
    [TypeError] there, printing nothing more; it completes exactly when
    every group has an average. *)
Theorem average_line_needs_an_average (docs : list group_doc) (s : runtime) :
  (Forall (λ a, is_Some (avgPrice a)) docs ∧
   forEach docs avg_line s = (Ret (), emit_all (avg_event <$> docs) s)) ∨
  (∃ printed g rest msg,
     docs = printed ++ g :: rest ∧
     Forall (λ a, is_Some (avgPrice a)) printed ∧ avgPrice g = None ∧
     forEach docs avg_line s = (Throw (TypeError msg), emit_all (avg_event <$> printed) s)).
Proof.
  revert s. induction docs as [|a docs IH]; intros s.
  { left. split; [constructor|]. by rewrite emit_all_nil. }
  change (forEach (a :: docs) avg_line s)
    with ((avg_line a ≫= λ _, forEach docs avg_line) s).
  destruct (avgPrice a) as [p|] eqn:Ha.
  - unfold mbind, M_bind. rewrite avg_line_run by (by rewrite Ha).
    destruct (IH (emit (avg_event a) s))
      as [[Hall Hrun]|(printed & g & rest & msg & -> & Hall & Hg & Hrun)].
    + left. split; [constructor; [by rewrite Ha|done]|].
      by rewrite Hrun, fmap_cons, emit_all_cons.
    + right. exists (a :: printed), g, rest, msg.
      split; [done|]. split; [constructor; [by rewrite Ha|done]|]. split; [done|].
      by rewrite Hrun, fmap_cons, emit_all_cons.
  - right. exists [], a, docs. eexists. split; [done|]. split; [constructor|].
    split; [done|]. unfold mbind, M_bind, avg_line. rewrite Ha. simpl.
    rewrite emit_all_nil. reflexivity.
Qed.

(** ** The two pages, as printed *)

(** X12. The two pages a run prints are taken from the collection as the
    delete has left it.  The first holds five records, or all of them when
    there are fewer; the second holds what is left after the first five, up
    to five; with five records or fewer the second page prints no line. *)
Theorem pages_printed (faults : nat → option error) (d : database) :
  (∀ i, i < 8 → faults i = None) →
  let tr := rt_trace (executeQueries faults (boot d)).2 in
  let after := books_deleted d in
  let page1 := cursor_result page1_cursor after in
  let page2 := cursor_result page2_cursor after in
  book_lines page1 `sublist_of` tr ∧
  book_lines page2 `sublist_of` tr ∧
  length page1 = length after `min` 5 ∧
  length page2 = (length after - 5) `min` 5 ∧
  (length after ≤ 5 → book_lines page2 = []).
Proof.
  intros Hfaults tr after page1 page2.
  destruct (run_transcript faults d 8) as
    (ok & Hok & _ & _ & _ & _ & Hp1 & Hp2 & _); [simpl; lia|done|].
  fold tr after in Hp1, Hp2.
  assert (Hl1 : length page1 = length after `min` 5).
  { unfold page1, cursor_result.
    rewrite length_fmap, page1_books, length_take, by_title_books, sort_by_length. lia. }
  assert (Hl2 : length page2 = (length after - 5) `min` 5).
  { unfold page2, cursor_result.
    rewrite length_fmap, page2_books, length_take, length_drop, by_title_books,
      sort_by_length. lia. }
  split; [apply Hp1; lia|]. split; [apply Hp2; lia|].
  split; [done|]. split; [done|].
  intros Hle. destruct page2 as [|b l] eqn:Hpage; [done|]. simpl in Hl2. lia.
Qed.

Lemma pages_printed_witness :
  (∀ i, i < 8 → no_faults i = None) ∧
  length (cursor_result page1_cursor (books_deleted seeded_db)) = 3 ∧
  book_lines (cursor_result page2_cursor (books_deleted seeded_db)) = [].
Proof.
  pose proof (pages_printed no_faults seeded_db (λ _ _, eq_refl))
    as (_ & _ & H1 & _ & H2).
  split; [done|]. split; [exact H1|]. apply H2. vm_compute. lia.
Defined.
